(** * client-web: chunk sources, the TDF3 client and the multipart uploader

  A shallow embedding of three parts of the repository:

  - [Chunkers]: lib/tdf3/src/utils/chunkers.ts together with the
    DecoratedReadableStream class it imports;
  - [Tdf3Client]: the constructor and [encrypt] of tdf3/src/client/index.ts;
  - [S3Upload]: the [Upload] class of the aws-lib-storage copy, as a
    labelled step function over the state of one upload.

  [Scenarios] holds the concrete inputs; the properties follow in
  [ChunkerProofs], [ClientProofs] and [UploadProofs].

  The further definitions add decrypt ([Tdf3Decrypt]), the toFile method of
  DecoratedReadableStream ([StreamSinks]) and what is observed of servers,
  clients and uploads ([RemoteReplies], [ClientObservations],
  [UploadObservations]); their properties are in [ChunkerCoverage],
  [ClientCoverage], [DecryptCoverage], [SinkCoverage] and [UploadCoverage].

  JavaScript numbers that the code uses as byte offsets and counters are
  integers here ([Z]); [undefined] arguments are [None].  Promises are run
  to completion inside a state-and-error monad whose state records what the
  code does to the outside world. *)

From stdpp Require Import base option list sorting gmap strings pretty.
From Stdlib Require Import ZArith Lia.

Open Scope Z_scope.

(** ** JavaScript values shared by the three parts *)

Module Js.

(** Contents of a [Uint8Array] or [Buffer]. *)
Abbreviation bytes := (list Byte.byte).

(** The exceptions the modelled code throws or receives. *)
Inductive JsError : Type :=
| Error (message : string)
| TypeError (message : string)
| RangeError (message : string)
| TdfError (message : string)
| AbortError (message : string)          (* an Error whose name is 'AbortError' *)
| SystemError (code : string)            (* fs errors: ENOENT, ... *)
| AxiosError (status : option Z).        (* no response, or a non-2xx status *)

Inductive Result (A : Type) : Type :=
| Ok (a : A)
| Throw (e : JsError).
Arguments Ok {A} a.
Arguments Throw {A} e.

(** Code with effects: a state [S] of the outside world is threaded through,
    and a thrown exception ends the computation with the state it reached. *)
Definition Eff (S A : Type) : Type := S -> Result A * S.

#[export] Instance Eff_ret {S : Type} : MRet (Eff S) := fun A a w => (Ok a, w).
#[export] Instance Eff_bind {S : Type} : MBind (Eff S) := fun A B f m w =>
  match m w with
  | (Ok a, w') => f a w'
  | (Throw e, w') => (Throw e, w')
  end.

Definition throw {S A : Type} (e : JsError) : Eff S A := fun w => (Throw e, w).

(** [try { body } catch (e) { handler e }] *)
Definition try_catch {S A : Type} (body : Eff S A) (handler : JsError -> Eff S A)
  : Eff S A :=
  fun w =>
    match body w with
    | (Ok a, w') => (Ok a, w')
    | (Throw e, w') => handler e w'
    end.

(** A promise that has settled: awaiting it returns or throws. *)
Definition await {S A : Type} (promise : Result A) : Eff S A :=
  fun w => (promise, w).

(** [`${e}`] for an exception. *)
Definition error_to_string (e : JsError) : string :=
  match e with
  | Error m => "Error: " +:+ m
  | TypeError m => "TypeError: " +:+ m
  | RangeError m => "RangeError: " +:+ m
  | TdfError m => "Error: " +:+ m
  | AbortError m => "AbortError: " +:+ m
  | SystemError c => "Error: " +:+ c
  | AxiosError _ => "AxiosError: Request failed"
  end.

(** Truthiness of an optional number: [undefined] and [0] are falsy. *)
Definition truthy (x : option Z) : bool :=
  match x with
  | Some z => negb (z =? 0)
  | None => false
  end.

(** Truthiness of an optional string: [undefined] and [''] are falsy. *)
Definition truthy_str (x : option string) : bool :=
  match x with
  | Some s => negb (String.eqb s "")
  | None => false
  end.

(** [x || 0] on an optional number. *)
Definition or0 (x : option Z) : Z := default 0 x.

(** [%TypedArray%.prototype.slice] and [Buffer.prototype.slice] agree on
    which elements they return: relative indices count from the end, both
    are clamped to the length, and an inverted range is empty. *)
Definition rel_index (len : Z) (i : Z) : Z :=
  if i <? 0 then Z.max (len + i) 0 else Z.min i len.

Definition slice (b : bytes) (byteStart byteEnd : option Z) : bytes :=
  let len := Z.of_nat (length b) in
  let k := rel_index len (default 0 byteStart) in
  let final := rel_index len (default len byteEnd) in
  take (Z.to_nat (Z.max (final - k) 0)) (drop (Z.to_nat k) b).

(** The spec's [S[a:b]] for [0 <= a <= b <= |S|], and its suffix [S[a:]]. *)
Definition sub (S : bytes) (a b : Z) : bytes :=
  take (Z.to_nat (b - a)) (drop (Z.to_nat a) S).

Definition suffix_from (S : bytes) (a : Z) : bytes := drop (Z.to_nat a) S.

End Js.

Import Js.

(** ** lib/tdf3/src/utils/chunkers.ts *)

Module Chunkers.

(** *** The outside world of a chunker *)

Record Request : Type := mkRequest {
  req_url : string;
  req_range : option string            (* the Range header, when sent *)
}.

Inductive HttpReply : Type :=
| NetworkFailure
| HttpResponse (status : Z) (data : option bytes).

(** A one-shot [ReadableStream]: its chunks, and an identity under which the
    world remembers that it has been read. *)
Record ReadableStream : Type := mkStream {
  stream_id : nat;
  chunks : list bytes
}.

Record World : Type := mkWorld {
  files : gmap string bytes;           (* the local file system *)
  http : nat -> Request -> HttpReply;  (* reply to the n-th request sent *)
  requests : list Request;             (* requests sent so far, oldest first *)
  console : list string;               (* console.log output *)
  disturbed : list nat                 (* streams already consumed *)
}.

Abbreviation M := (Eff World).

(** [Chunker = (byteStart?: number, byteEnd?: number) => Promise<Uint8Array>] *)
Definition Chunker : Type := option Z -> option Z -> M bytes.

(** *** fromBrowserFile and fromBuffer *)

(** [Blob.prototype.slice] selects bytes the way array slice does. *)
Definition fromBrowserFile (fileRef : bytes) : Chunker :=
  fun byteStart byteEnd => mret (slice fileRef byteStart byteEnd).

Definition fromBuffer (buffer : bytes) : Chunker :=
  fun byteStart byteEnd => mret (slice buffer byteStart byteEnd).

(** *** Node's fs, as far as fromNodeFile uses it *)

Definition statSync_size (filePath : string) : M Z := fun w =>
  match files w !! filePath with
  | Some c => (Ok (Z.of_nat (length c)), w)
  | None => (Throw (SystemError "ENOENT"), w)
  end.

Definition readFile (filePath : string) : M bytes := fun w =>
  match files w !! filePath with
  | Some c => (Ok c, w)
  | None => (Throw (SystemError "ENOENT"), w)
  end.

(** [createReadStream(path, {start, end})] read to its end: both bounds are
    inclusive, an absent [end] means the end of the file, and Node rejects a
    negative bound or [start > end] with ERR_OUT_OF_RANGE.  The bounds are
    taken to be safe integers, as file sizes are: a bound above
    Number.MAX_SAFE_INTEGER, which Node rejects as well, is outside this
    definition. *)
Definition createReadStream (filePath : string) (start : Z) (end_ : option Z)
  : M bytes := fun w =>
  if start <? 0 then (Throw (RangeError "ERR_OUT_OF_RANGE"), w)
  else if match end_ with
          | Some e => (e <? 0) || (e <? start)
          | None => false
          end
  then (Throw (RangeError "ERR_OUT_OF_RANGE"), w)
  else
    match files w !! filePath with
    | None => (Throw (SystemError "ENOENT"), w)
    | Some c =>
        let len := Z.of_nat (length c) in
        let stop := match end_ with
                    | Some e => Z.min (e + 1) len
                    | None => len
                    end in
        (Ok (take (Z.to_nat (stop - start)) (drop (Z.to_nat start) c)), w)
    end.

(** *** fromNodeFile *)

(** The closure returned by [fromNodeFile]; [fileSize] was read once, when
    the chunker was made. *)
Definition fromNodeFile_chunker (filePath : string) (fileSize : Z) : Chunker :=
  fun byteStart byteEnd =>
    let start := or0 byteStart in
    let end_ := byteEnd in
    if negb (truthy (Some start)) && negb (truthy end_) then
      readFile filePath
    else
      let start :=
        if start <? 0 then Z.max 0 (fileSize - Z.abs start) else start in
      let end_ :=
        match byteEnd with
        | Some e =>
            if truthy byteEnd then
              if e <? 0 then Some (fileSize + e - 1) else Some (e - 1)
            else end_
        | None => end_
        end in
      createReadStream filePath start end_.

Definition fromNodeFile (filePath : string) : M Chunker :=
  fileSize ← statSync_size filePath;
  mret (fromNodeFile_chunker filePath fileSize).

(** *** getRemoteChunk and fromUrl *)

Definition log_request (req : Request) (w : World) : World :=
  mkWorld (files w) (http w) (requests w ++ [req]) (console w) (disturbed w).

Definition console_log (line : string) : M unit := fun w =>
  (Ok tt, mkWorld (files w) (http w) (requests w) (console w ++ [line]) (disturbed w)).

(** One GET: the request goes out, and axios rejects unless the status is 2xx. *)
Definition axios_get_once (req : Request) : M (option bytes) := fun w =>
  let w' := log_request req w in
  match http w (length (requests w)) req with
  | NetworkFailure => (Throw (AxiosError None), w')
  | HttpResponse status data =>
      if (200 <=? status) && (status <? 300) then (Ok data, w')
      else (Throw (AxiosError (Some status)), w')
  end.

(** [axiosRemoteChunk.get]: axios-retry with [retryCondition: () => true]
    sends the request again after every failure, [retries] more times. *)
Fixpoint axiosRemoteChunk_get (retries : nat) (req : Request) : M (option bytes) :=
  try_catch (axios_get_once req)
    (fun e =>
       match retries with
       | O => throw e
       | S n => axiosRemoteChunk_get n req
       end).

Definition getRemoteChunk (url : string) (range : option string) : M bytes :=
  try_catch
    (data ← axiosRemoteChunk_get 3
              (mkRequest url
                 (if truthy_str range then (λ r, "bytes=" +:+ r) <$> range else None));
     match data with
     | None =>
         throw (Error
           "Unexpected response type: Server should have responded with an ArrayBuffer.")
     | Some d => mret d
     end)
    (fun e =>
       match e with
       | AxiosError (Some 416) => console_log "Warning: Range not satisfiable"
       | _ => mret tt
       end;;
       throw e).

(** The chunker that [fromUrl] resolves to.  [pretty] prints an integer in
    decimal digits, which is what the template literal prints for a safe
    integer; offsets beyond Number.MAX_SAFE_INTEGER are outside this
    definition. *)
Definition fromUrl_chunker (location : string) : Chunker :=
  fun byteStart byteEnd =>
    match byteStart with
    | None => getRemoteChunk location None
    | Some s =>
        let rangeHeader : string := pretty s in
        if truthy byteEnd && (or0 byteEnd <? 0) then
          throw (Error "negative end unsupported")
        else if truthy byteEnd then
          getRemoteChunk location
            (Some (rangeHeader +:+ "-" +:+ pretty (or0 byteEnd - 1)))
        else
          getRemoteChunk location (Some rangeHeader)
    end.

Definition fromUrl (location : string) : M Chunker :=
  mret (fromUrl_chunker location).

(** *** DecoratedReadableStream *)

(** [new Response(stream).arrayBuffer()]: fails on a stream that was already
    read, otherwise drains it. *)
Definition streamToBuffer (stream : ReadableStream) : M bytes := fun w =>
  if bool_decide (stream_id stream ∈ disturbed w) then
    (Throw (TypeError "body stream already read"), w)
  else
    (Ok (concat (chunks stream)),
     mkWorld (files w) (http w) (requests w) (console w)
       (stream_id stream :: disturbed w)).

(** The fields of the class that the modelled code reads or writes. *)
Record DecoratedReadableStream : Type := mkDecorated {
  stream : ReadableStream;
  policyUuid : option string;
  fileStreamServiceWorker : option string
}.

(** The methods the class declares. *)
Definition DecoratedReadableStream_methods : list string :=
  ["toString"; "toFile"].

(** What every object inherits from [Object.prototype]. *)
Definition Object_prototype_methods : list string :=
  ["constructor"; "hasOwnProperty"; "isPrototypeOf"; "propertyIsEnumerable";
   "toLocaleString"; "toString"; "valueOf"].

(** *** DataSource and fromDataSource *)

(** What a caller can put in [location]; the TypeScript union is checked
    again at run time by [fromDataSource]. *)
Inductive Location : Type :=
| LUint8Array (b : bytes)
| LFunction (f : Chunker)
| LBlob (b : bytes)
| LString (s : string)
| LDecorated (d : DecoratedReadableStream)      (* an instance of the class *)
| LObject (methods : gmap string (M bytes))     (* another object, with its
                                                   own async methods *)
| LUndefined.

Record DataSource : Type := mkDataSource {
  type : string;
  location : Location
}.

(** [typeof s?.name !== 'undefined'] *)
Definition has_property (s : Location) (name : string) : bool :=
  match s with
  | LUndefined => false
  | LDecorated _ =>
      bool_decide (name ∈ DecoratedReadableStream_methods)
      || bool_decide (name ∈ Object_prototype_methods)
  | LObject methods =>
      bool_decide (is_Some (methods !! name))
      || bool_decide (name ∈ Object_prototype_methods)
  | _ => bool_decide (name ∈ Object_prototype_methods)
  end.

Definition isDecoratedReadableStream (s : Location) : bool :=
  has_property s "toFile" && has_property s "toString".

(** [await location.toBuffer()]: a property that is not there cannot be
    called. *)
Definition call_toBuffer (location : Location) : M bytes :=
  if has_property location "toBuffer" then
    match location with
    | LObject methods =>
        default (throw (TypeError "location.toBuffer is not a function"))
          (methods !! "toBuffer")
    | _ => throw (TypeError "location.toBuffer is not a function")
    end
  else throw (TypeError "location.toBuffer is not a function").

Definition fromDataSource (source : DataSource) : M Chunker :=
  let location := location source in
  if String.eqb (type source) "buffer" then
    match location with
    | LUint8Array b => mret (fromBuffer b)
    | _ => throw (Error "Invalid data source; must be uint8 array")
    end
  else if String.eqb (type source) "chunker" then
    match location with
    | LFunction f => mret f
    | _ => throw (Error "Invalid data source; must be uint8 array")
    end
  else if String.eqb (type source) "file-browser" then
    match location with
    | LBlob b => mret (fromBrowserFile b)
    | _ => throw (Error "Invalid data source; must be at least a Blob")
    end
  else if String.eqb (type source) "file-node" then
    match location with
    | LString filePath => fromNodeFile filePath
    | _ => throw (Error "Invalid data source; file path not provided")
    end
  else if String.eqb (type source) "remote" then
    match location with
    | LString url => fromUrl url
    | _ => throw (Error "Invalid data source; url not provided")
    end
  else if String.eqb (type source) "stream" then
    if negb (isDecoratedReadableStream location) then
      throw (Error "Invalid data source; must be DecoratedTdfStream")
    else
      buffer ← call_toBuffer location;
      mret (fromBuffer buffer)
  else
    throw (Error ("Data source type not defined, or not supported: "
                  +:+ type source +:+ "}")).

End Chunkers.



(** ** tdf3/src/client/index.ts *)

Module Tdf3Client.

Definition GLOBAL_BYTE_LIMIT : Z := 64 * 1000 * 1000 * 1000.
Definition HTML_BYTE_LIMIT : Z := 100 * 1000 * 1000.

(** Modelled from the spec: DEFAULT_SEGMENT_SIZE is declared in builders.js,
    which is not among the sources; spec 4.4 and the comment on [encrypt]
    give a million bytes. *)
Definition DEFAULT_SEGMENT_SIZE : Z := 1000 * 1000.

(** *** Data *)

Record PemKeyPair : Type := mkPemKeyPair {
  publicKey : string;
  privateKey : string
}.

(** An auth provider: one a caller supplies ([isAppId] is what
    isAppIdProviderCheck, which is not among the sources, answers for it) or
    one of the two the constructor builds. *)
Inductive AuthProvider : Type :=
| CustomProvider (isAppId : bool) (name : string)
| OIDCRefreshTokenProvider (clientId refreshToken oidcOrigin : string)
| OIDCExternalJwtProvider (clientId externalJwt oidcOrigin : string).

Definition isAppIdProviderCheck (provider : AuthProvider) : bool :=
  match provider with
  | CustomProvider isAppId _ => isAppId
  | _ => false
  end.

Record ClientConfig : Type := mkClientConfig {
  cfg_keypair : option PemKeyPair;
  cfg_organizationName : option string;
  cfg_clientId : option string;
  cfg_dpopEnabled : option bool;
  cfg_kasEndpoint : option string;
  cfg_easEndpoint : option string;
  cfg_keyRewrapEndpoint : option string;
  cfg_keyUpsertEndpoint : option string;
  cfg_clientSecret : option string;
  cfg_refreshToken : option string;
  cfg_kasPublicKey : option string;
  cfg_oidcOrigin : option string;
  cfg_externalJwt : option string;
  cfg_authProvider : option AuthProvider;
  cfg_readerUrl : option string;
  cfg_entityObjectEndpoint : option string;
  cfg_fileStreamServiceWorker : option string;
  cfg_progressHandler : bool              (* whether a handler is configured *)
}.

Record SessionKeys : Type := mkSessionKeys {
  keypair : PemKeyPair;
  signingKeys : option string
}.

Record EAS : Type := mkEAS {
  eas_authProvider : AuthProvider;
  eas_endpoint : string
}.

(** A constructed [Client].  The two promise fields hold what the promise
    settles with. *)
Record Client : Type := mkClient {
  kasEndpoint : string;
  kasPublicKey : Result string;
  clientId : option string;
  authProvider : option AuthProvider;
  readerUrl : option string;
  sessionKeys : Result SessionKeys;
  eas : option EAS;
  dpopEnabled : bool;
  clientConfig : ClientConfig
}.

Record PolicyBody : Type := mkPolicyBody {
  dataAttributes : list string;
  dissem : list string
}.

Record Policy : Type := mkPolicy {
  uuid : string;
  body : PolicyBody
}.

Record Scope : Type := mkScope {
  scope_policyObject : option Policy;
  scope_policyId : option string;
  scope_attributes : option (list string);
  scope_dissem : option (list string)
}.

(** The plaintext stream handed to [encrypt].  The modelled code passes it on
    unread; the writer only depends on how many bytes it carries. *)
Record PlaintextSource : Type := mkPlaintextSource {
  plaintext_size : Z
}.

Record EncryptParams : Type := mkEncryptParams {
  scope : option Scope;
  source : PlaintextSource;
  asHtml : option bool;
  metadata : option string;
  mimeType : option string;
  offline : option bool;
  rcaSource : bool;                       (* whether a truthy value was passed *)
  windowSize : option Z;
  eo : option string;
  payloadKey : option string
}.

(** The argument of [tdf.addKeyAccess]. *)
Record KeyAccessParams : Type := mkKeyAccessParams {
  ka_type : string;
  ka_url : string;
  ka_publicKey : string;
  ka_metadata : option string
}.

(** *** What the client does to its collaborators *)

(** The TDF builder (tdf3/src/tdf.ts) is not among the sources.  Its setters
    are recorded as calls; of its methods only the two that [encrypt] awaits,
    addKeyAccess and writeStream, are taken to be able to fail. *)

Inductive Effect : Type :=
| NewEAS (e : EAS)
| NewAuthProvider (p : AuthProvider)
| GenerateKeyPair
| GenerateSigningKeys
| UpdateClientPublicKey (provider : AuthProvider) (encodedKey : string)
                        (signingKeys : option string)
| GetPublicKeyFromKeyAccessServer (kasEndpoint : string)
| AwaitSessionKeys
| AwaitKasPublicKey
| CreatePolicyObject (p : Policy)
| TdfCreate
| TdfSetPrivateKey (k : string)
| TdfSetPublicKey (k : string)
| TdfSetEncryption (type cipher : string)
| TdfSetDefaultSegmentSize (n : Z)
| TdfSetIntegrityAlgorithm (root segment : string)
| TdfAddContentStream (source : PlaintextSource) (mimeType : option string)
| TdfSetPolicy (p : Policy)
| TdfSetAuthProvider (a : option AuthProvider)
| TdfSetEntity (eo : string)
| TdfAddKeyAccess (ka : KeyAccessParams)
| TdfWriteStream (byteLimit : Z) (isRcaFlow : bool) (payloadKey : option string)
                 (progressHandler : bool).

(** What the collaborators answer.  None of them is among the sources. *)
Record Env : Type := mkEnv {
  env_generateKeyPair : Result PemKeyPair;      (* cryptoToPemPair(generateKeyPair()) *)
  env_generateSigningKeys : Result string;      (* crypto.subtle.generateKey *)
  env_updateClientPublicKey : Result unit;
  env_base64_encode : string -> string;
  env_kas_public_key : string -> Result string; (* TDF.getPublicKeyFromKeyAccessServer *)
  env_v4 : string;                              (* uuid v4() *)
  env_addKeyAccess : KeyAccessParams -> Result unit;
  env_write : Result Chunkers.DecoratedReadableStream
}.

Abbreviation C := (Eff (list Effect)).

Definition emit (e : Effect) : C unit := fun t => (Ok tt, t ++ [e]).

(** [s.replace(/\/rewrap$/, '')]: the first position from the left at which
    the rest of the string is exactly [/rewrap] is where the match is cut
    out. *)
Fixpoint replace_rewrap_suffix (s : string) : string :=
  if String.eqb s "/rewrap" then ""
  else
    match s with
    | EmptyString => EmptyString
    | String c rest => String c (replace_rewrap_suffix rest)
    end.

Section WithEnv.

Variable env : Env.

(** *** createSessionKeys and fetchKasPubKey *)

Definition createSessionKeys (authProvider : option AuthProvider)
    (dpopEnabled : bool) (keypair : option PemKeyPair) : C SessionKeys :=
  k2 ← match keypair with
       | Some k => mret k
       | None => emit GenerateKeyPair;; await (env_generateKeyPair env)
       end;
  signingKeys ← (if dpopEnabled
                 then emit GenerateSigningKeys;;
                      k ← await (env_generateSigningKeys env); mret (Some k)
                 else mret None);
  match authProvider with
  | Some provider =>
      if negb (isAppIdProviderCheck provider) then
        emit (UpdateClientPublicKey provider
                (env_base64_encode env (publicKey k2)) signingKeys);;
        await (env_updateClientPublicKey env)
      else mret tt
  | None => mret tt
  end;;
  mret (mkSessionKeys k2 signingKeys).

Definition fetchKasPubKey (kasEndpoint : string) : C string :=
  if String.eqb kasEndpoint "" then throw (TdfError "KAS definition not found")
  else
    try_catch
      (emit (GetPublicKeyFromKeyAccessServer kasEndpoint);;
       await (env_kas_public_key env kasEndpoint))
      (fun e =>
         throw (TdfError ("Retrieving KAS public key [" +:+ kasEndpoint
                          +:+ "] failed [" +:+ error_to_string e +:+ "]"))).

(** An async function called without [await]: what it does happens, and its
    outcome is kept as the promise's settlement instead of being thrown. *)
Definition start {A : Type} (body : C A) : C (Result A) :=
  fun t => let '(r, t') := body t in (Ok r, t').

(** *** constructor *)

(** [{ ...defaultClientConfig, ...config }] *)
Definition with_defaultClientConfig (config : ClientConfig) : ClientConfig :=
  mkClientConfig (cfg_keypair config) (cfg_organizationName config)
    (cfg_clientId config) (cfg_dpopEnabled config) (cfg_kasEndpoint config)
    (cfg_easEndpoint config) (cfg_keyRewrapEndpoint config)
    (cfg_keyUpsertEndpoint config) (cfg_clientSecret config)
    (cfg_refreshToken config) (cfg_kasPublicKey config)
    (Some (default "" (cfg_oidcOrigin config))) (cfg_externalJwt config)
    (cfg_authProvider config) (cfg_readerUrl config)
    (cfg_entityObjectEndpoint config) (cfg_fileStreamServiceWorker config)
    (cfg_progressHandler config).

Definition Client_new (config0 : ClientConfig) : C Client :=
  let config := with_defaultClientConfig config0 in
  let oidcOrigin := default "" (cfg_oidcOrigin config) in
  let dpopEnabled := default false (cfg_dpopEnabled config) in
  let readerUrl :=
    if truthy_str (cfg_readerUrl config) then cfg_readerUrl config else None in
  kasEndpoint ←
    (if truthy_str (cfg_kasEndpoint config) then
       mret (default "" (cfg_kasEndpoint config))
     else if negb (truthy_str (cfg_keyRewrapEndpoint config)) then
       throw (Error "KAS definition not found")
     else
       mret (replace_rewrap_suffix (default "" (cfg_keyRewrapEndpoint config))));
  let authProvider := cfg_authProvider config in
  eas ←
    match authProvider with
    | Some provider =>
        if isAppIdProviderCheck provider then
          let e := mkEAS provider
                     (if truthy_str (cfg_entityObjectEndpoint config)
                      then default "" (cfg_entityObjectEndpoint config)
                      else default "undefined" (cfg_easEndpoint config)
                           +:+ "/api/entityobject") in
          emit (NewEAS e);; mret (Some e)
        else mret None
    | None => mret None
    end;
  let clientId := cfg_clientId config in
  authProvider ←
    match authProvider with
    | Some provider => mret (Some provider)
    | None =>
        if negb (truthy_str clientId) then
          throw (Error "Client ID or custom AuthProvider must be defined")
        else if truthy_str (cfg_clientSecret config) then
          throw (Error "Client credentials not supported in a browser context")
        else if truthy_str (cfg_refreshToken config) then
          let p := OIDCRefreshTokenProvider (default "" clientId)
                     (default "" (cfg_refreshToken config)) oidcOrigin in
          emit (NewAuthProvider p);; mret (Some p)
        else if truthy_str (cfg_externalJwt config) then
          let p := OIDCExternalJwtProvider (default "" clientId)
                     (default "" (cfg_externalJwt config)) oidcOrigin in
          emit (NewAuthProvider p);; mret (Some p)
        else mret None
    end;
  sessionKeys ←
    match cfg_keypair config with
    | Some k => mret (Ok (mkSessionKeys k None))
    | None => start (createSessionKeys authProvider dpopEnabled (cfg_keypair config))
    end;
  kasPublicKey ←
    (if truthy_str (cfg_kasPublicKey config) then
       mret (Ok (default "" (cfg_kasPublicKey config)))
     else start (fetchKasPubKey kasEndpoint));
  mret (mkClient kasEndpoint kasPublicKey clientId authProvider readerUrl
          sessionKeys eas dpopEnabled config).

(** *** _createPolicyObject *)

Definition _createPolicyObject (scope : Scope) : Policy :=
  match scope_policyObject scope with
  | Some p => p
  | None =>
      let policyId :=
        if truthy_str (scope_policyId scope)
        then default "" (scope_policyId scope) else env_v4 env in
      mkPolicy policyId
        (mkPolicyBody (default [] (scope_attributes scope))
                      (default [] (scope_dissem scope)))
  end.

(** *** The writer *)

(** Modelled from the spec: TDF.writeStream (tdf3/src/tdf.ts) is not among the
    sources.  Spec 4.4: the writer fails if the plaintext size exceeds the
    configured byte limit; whatever else decides its outcome is the
    environment's answer. *)
Definition TDF_writeStream (source : PlaintextSource) (byteLimit : Z)
    (isRcaFlow : bool) (payloadKey : option string) (progressHandler : bool)
  : C Chunkers.DecoratedReadableStream :=
  emit (TdfWriteStream byteLimit isRcaFlow payloadKey progressHandler);;
  if byteLimit <? plaintext_size source then
    throw (Error "Safe byte limit exceeded")
  else await (env_write env).

(** *** encrypt *)

Definition encrypt (this : Client) (params : EncryptParams)
  : C Chunkers.DecoratedReadableStream :=
  let scope := default (mkScope None None (Some []) (Some [])) (scope params) in
  let asHtml := default false (asHtml params) in
  let offline := default false (offline params) in
  let windowSize := default DEFAULT_SEGMENT_SIZE (windowSize params) in
  let rcaSource := rcaSource params in
  (if asHtml then
     if rcaSource then
       throw (Error "rca links should be used only with zip format")
     else if negb (truthy_str (readerUrl this)) then
       throw (Error "html container missing required parameter: [readerUrl]")
     else mret tt
   else mret tt);;
  (if rcaSource && String.eqb (kasEndpoint this) "" then
     throw (Error "rca links require a kasEndpoint url to be set")
   else mret tt);;
  emit AwaitSessionKeys;;
  sessionKeys ← await (sessionKeys this);
  emit AwaitKasPublicKey;;
  kasPublicKey ← await (kasPublicKey this);
  let policyObject := _createPolicyObject scope in
  emit (CreatePolicyObject policyObject);;
  emit TdfCreate;;
  emit (TdfSetPrivateKey (privateKey (keypair sessionKeys)));;
  emit (TdfSetPublicKey (publicKey (keypair sessionKeys)));;
  emit (TdfSetEncryption "split" "aes-256-gcm");;
  emit (TdfSetDefaultSegmentSize windowSize);;
  emit (TdfSetIntegrityAlgorithm "hs256" "gmac");;
  emit (TdfAddContentStream (source params) (mimeType params));;
  emit (TdfSetPolicy policyObject);;
  emit (TdfSetAuthProvider (authProvider this));;
  match eo params with
  | Some e => emit (TdfSetEntity e)
  | None => mret tt
  end;;
  let ka := mkKeyAccessParams (if offline then "wrapped" else "remote")
              (kasEndpoint this) kasPublicKey (metadata params) in
  emit (TdfAddKeyAccess ka);;
  await (env_addKeyAccess env ka);;
  let byteLimit := if asHtml then HTML_BYTE_LIMIT else GLOBAL_BYTE_LIMIT in
  stream ← TDF_writeStream (source params) byteLimit rcaSource
             (payloadKey params) (cfg_progressHandler (clientConfig this));
  if rcaSource then
    mret (Chunkers.mkDecorated (Chunkers.stream stream)
            (Some (uuid policyObject))
            (Chunkers.fileStreamServiceWorker stream))
  else mret stream.

End WithEnv.

(** *** makeChunkable *)

(** A decrypt source: [type === 'stream'] with a web stream as location, or
    any of the data sources of chunkers.ts. *)
Inductive DecryptSource : Type :=
| DecryptStream (location : Chunkers.ReadableStream)
| DecryptData (source : Chunkers.DataSource).

Definition makeChunkable (source : option DecryptSource) : Chunkers.M Chunkers.Chunker :=
  match source with
  | None => throw (Error "Invalid source")
  | Some (DecryptStream location) =>
      buf ← Chunkers.streamToBuffer location;
      mret (Chunkers.fromBuffer buf)
  | Some (DecryptData source) => Chunkers.fromDataSource source
  end.

(** The key-access entries a run asked the TDF to add, and the limits it
    handed to the writer. *)
Definition key_access_added (t : list Effect) : list KeyAccessParams :=
  omap (fun e => match e with TdfAddKeyAccess ka => Some ka | _ => None end) t.

Definition byte_limits_handed (t : list Effect) : list Z :=
  omap (fun e => match e with TdfWriteStream l _ _ _ => Some l | _ => None end) t.

End Tdf3Client.


(** ** The multipart uploader (class Upload) *)

Module S3Upload.

Definition MIN_PART_SIZE : Z := 1024 * 1024 * 5.

(** S3 multipart upload does not allow more than 10000 parts. *)
Definition MAX_PARTS : Z := 10000.

(** *** Data *)

(** A body or a part of one, as far as [byteLength] tells bodies apart. *)
Inductive BodyData : Type :=
| BodyNull
| BodyString (s : string)
| BodyBytes (byteLength : Z)            (* Uint8Array, Buffer: has byteLength *)
| BodyArrayLike (length : Z)            (* has length *)
| BodyBlob (size : Z)                   (* has size *)
| BodyOther (description : string).

Definition byteLength (input : BodyData) : Result Z :=
  match input with
  | BodyNull => Ok 0
  | BodyString s => Ok (Z.of_nat (String.length s))
  | BodyBytes n => Ok n
  | BodyArrayLike n => Ok n
  | BodyBlob n => Ok n
  | BodyOther d => Throw (Error ("Unsupported type [" +:+ d +:+ "]"))
  end.

Record RawDataPart : Type := mkRawDataPart {
  partNumber : Z;
  data : BodyData;
  lastPart : bool
}.

Record Tag : Type := mkTag { tag_Key : string; tag_Value : string }.

Record Params : Type := mkParams {
  Bucket : option string;
  Key : option string;
  Body : BodyData
}.

(** The answer to an UploadPartCommand. *)
Record PartResult : Type := mkPartResult {
  res_ETag : option string;
  res_ChecksumCRC32 : option string;
  res_ChecksumCRC32C : option string;
  res_ChecksumSHA1 : option string;
  res_ChecksumSHA256 : option string
}.

Record CompletedPart : Type := mkCompletedPart {
  PartNumber : Z;
  ETag : option string;
  ChecksumCRC32 : option string;
  ChecksumCRC32C : option string;
  ChecksumSHA1 : option string;
  ChecksumSHA256 : option string
}.

(** What done() resolves with; the Location string that __uploadUsingPut
    formats from the endpoint is left out. *)
Record Output : Type := mkOutput {
  out_ETag : option string;
  out_Bucket : option string;
  out_Key : option string
}.

Record Progress : Type := mkProgress {
  loaded : Z;
  total : Z;
  part : Z
}.

Inductive Command : Type :=
| PutObjectCommand (body : BodyData)
| CreateMultipartUploadCommand
| UploadPartCommand (uploadId : option string) (body : BodyData) (partNumber : Z)
| CompleteMultipartUploadCommand (uploadId : option string)
                                 (parts : list CompletedPart)
| PutObjectTaggingCommand (tagSet : list Tag).

(** Where one call of __doConcurrentUpload stands: at the [for await] that
    asks the feeder for the next part, at one of its three awaits of S3, or
    settled. *)
Inductive Uploader : Type :=
| AtNext
| AwaitPut (dataPart : RawDataPart)
| AwaitCreate (dataPart : RawDataPart)
| AwaitPart (dataPart : RawDataPart)
| Returned
| Threw (e : JsError).

Inductive Main : Type :=
| NotStarted
| AwaitAll
| AwaitComplete
| AwaitTagging (result : option Output)
| Settled (r : Result (option Output)).

(** The constructor's argument.  [opt_chunks] stands for
    [getChunk(params.Body, partSize)], which lives in ./chunker.js and is not
    among the sources: the parts the generator yields, in order. *)
Record Options : Type := mkOptions {
  opt_queueSize : option Z;
  opt_partSize : option Z;
  opt_leavePartsOnError : option bool;
  opt_tags : option (list Tag);
  opt_client : bool;                      (* whether a client was passed *)
  opt_params : option Params;
  opt_chunks : list RawDataPart
}.

Record Upload : Type := mkUpload {
  queueSize : Z;
  partSize : Z;
  leavePartsOnError : bool;
  tags : list Tag;
  params : Params;
  totalBytes : Z;
  bytesUploadedSoFar : Z;
  aborted : bool   (* abortController.signal.aborted *);
  onabort : bool   (* abortSignal.onabort is installed *);
  concurrentUploaders : list Uploader;
  createMultiPartPromise : option (option (Result (option string)))   (* absent; pending; settled *);
  uploadedParts : list CompletedPart;
  uploadId : option string;
  uploadEvent : bool   (* a listener was registered with on() *);
  isMultiPart : bool;
  singleUploadResult : option Output;
  dataFeeder : list RawDataPart   (* what the generator has yet to yield *);
  feederClosing : bool   (* a for-await loop was left early *);
  main : Main   (* where __doMultipartUpload stands *);
  done_result : option (Result (option Output))   (* what done() settled with *);
  sent : list Command   (* commands sent to S3, oldest first *);
  progress : list Progress   (* progress events emitted *)
}.

Definition set_bytesUploadedSoFar (v : Z) (s : Upload) : Upload :=
  mkUpload (queueSize s) (partSize s) (leavePartsOnError s) (tags s)
    (params s) (totalBytes s) v (aborted s) (onabort s)
    (concurrentUploaders s) (createMultiPartPromise s) (uploadedParts s)
    (uploadId s) (uploadEvent s) (isMultiPart s) (singleUploadResult s)
    (dataFeeder s) (feederClosing s) (main s) (done_result s) (sent s)
    (progress s).

Definition set_aborted (v : bool) (s : Upload) : Upload :=
  mkUpload (queueSize s) (partSize s) (leavePartsOnError s) (tags s)
    (params s) (totalBytes s) (bytesUploadedSoFar s) v (onabort s)
    (concurrentUploaders s) (createMultiPartPromise s) (uploadedParts s)
    (uploadId s) (uploadEvent s) (isMultiPart s) (singleUploadResult s)
    (dataFeeder s) (feederClosing s) (main s) (done_result s) (sent s)
    (progress s).

Definition set_onabort (v : bool) (s : Upload) : Upload :=
  mkUpload (queueSize s) (partSize s) (leavePartsOnError s) (tags s)
    (params s) (totalBytes s) (bytesUploadedSoFar s) (aborted s) v
    (concurrentUploaders s) (createMultiPartPromise s) (uploadedParts s)
    (uploadId s) (uploadEvent s) (isMultiPart s) (singleUploadResult s)
    (dataFeeder s) (feederClosing s) (main s) (done_result s) (sent s)
    (progress s).

Definition set_concurrentUploaders (v : list Uploader) (s : Upload) : Upload :=
  mkUpload (queueSize s) (partSize s) (leavePartsOnError s) (tags s)
    (params s) (totalBytes s) (bytesUploadedSoFar s) (aborted s) (onabort s) v
    (createMultiPartPromise s) (uploadedParts s) (uploadId s) (uploadEvent s)
    (isMultiPart s) (singleUploadResult s) (dataFeeder s) (feederClosing s)
    (main s) (done_result s) (sent s) (progress s).

Definition set_createMultiPartPromise (v : option (option (Result (option string)))) (s : Upload) : Upload :=
  mkUpload (queueSize s) (partSize s) (leavePartsOnError s) (tags s)
    (params s) (totalBytes s) (bytesUploadedSoFar s) (aborted s) (onabort s)
    (concurrentUploaders s) v (uploadedParts s) (uploadId s) (uploadEvent s)
    (isMultiPart s) (singleUploadResult s) (dataFeeder s) (feederClosing s)
    (main s) (done_result s) (sent s) (progress s).

Definition set_uploadedParts (v : list CompletedPart) (s : Upload) : Upload :=
  mkUpload (queueSize s) (partSize s) (leavePartsOnError s) (tags s)
    (params s) (totalBytes s) (bytesUploadedSoFar s) (aborted s) (onabort s)
    (concurrentUploaders s) (createMultiPartPromise s) v (uploadId s)
    (uploadEvent s) (isMultiPart s) (singleUploadResult s) (dataFeeder s)
    (feederClosing s) (main s) (done_result s) (sent s) (progress s).

Definition set_uploadId (v : option string) (s : Upload) : Upload :=
  mkUpload (queueSize s) (partSize s) (leavePartsOnError s) (tags s)
    (params s) (totalBytes s) (bytesUploadedSoFar s) (aborted s) (onabort s)
    (concurrentUploaders s) (createMultiPartPromise s) (uploadedParts s) v
    (uploadEvent s) (isMultiPart s) (singleUploadResult s) (dataFeeder s)
    (feederClosing s) (main s) (done_result s) (sent s) (progress s).

Definition set_uploadEvent (v : bool) (s : Upload) : Upload :=
  mkUpload (queueSize s) (partSize s) (leavePartsOnError s) (tags s)
    (params s) (totalBytes s) (bytesUploadedSoFar s) (aborted s) (onabort s)
    (concurrentUploaders s) (createMultiPartPromise s) (uploadedParts s)
    (uploadId s) v (isMultiPart s) (singleUploadResult s) (dataFeeder s)
    (feederClosing s) (main s) (done_result s) (sent s) (progress s).

Definition set_isMultiPart (v : bool) (s : Upload) : Upload :=
  mkUpload (queueSize s) (partSize s) (leavePartsOnError s) (tags s)
    (params s) (totalBytes s) (bytesUploadedSoFar s) (aborted s) (onabort s)
    (concurrentUploaders s) (createMultiPartPromise s) (uploadedParts s)
    (uploadId s) (uploadEvent s) v (singleUploadResult s) (dataFeeder s)
    (feederClosing s) (main s) (done_result s) (sent s) (progress s).

Definition set_singleUploadResult (v : option Output) (s : Upload) : Upload :=
  mkUpload (queueSize s) (partSize s) (leavePartsOnError s) (tags s)
    (params s) (totalBytes s) (bytesUploadedSoFar s) (aborted s) (onabort s)
    (concurrentUploaders s) (createMultiPartPromise s) (uploadedParts s)
    (uploadId s) (uploadEvent s) (isMultiPart s) v (dataFeeder s)
    (feederClosing s) (main s) (done_result s) (sent s) (progress s).

Definition set_dataFeeder (v : list RawDataPart) (s : Upload) : Upload :=
  mkUpload (queueSize s) (partSize s) (leavePartsOnError s) (tags s)
    (params s) (totalBytes s) (bytesUploadedSoFar s) (aborted s) (onabort s)
    (concurrentUploaders s) (createMultiPartPromise s) (uploadedParts s)
    (uploadId s) (uploadEvent s) (isMultiPart s) (singleUploadResult s) v
    (feederClosing s) (main s) (done_result s) (sent s) (progress s).

Definition set_feederClosing (v : bool) (s : Upload) : Upload :=
  mkUpload (queueSize s) (partSize s) (leavePartsOnError s) (tags s)
    (params s) (totalBytes s) (bytesUploadedSoFar s) (aborted s) (onabort s)
    (concurrentUploaders s) (createMultiPartPromise s) (uploadedParts s)
    (uploadId s) (uploadEvent s) (isMultiPart s) (singleUploadResult s)
    (dataFeeder s) v (main s) (done_result s) (sent s) (progress s).

Definition set_main (v : Main) (s : Upload) : Upload :=
  mkUpload (queueSize s) (partSize s) (leavePartsOnError s) (tags s)
    (params s) (totalBytes s) (bytesUploadedSoFar s) (aborted s) (onabort s)
    (concurrentUploaders s) (createMultiPartPromise s) (uploadedParts s)
    (uploadId s) (uploadEvent s) (isMultiPart s) (singleUploadResult s)
    (dataFeeder s) (feederClosing s) v (done_result s) (sent s) (progress s).

Definition set_done_result (v : option (Result (option Output))) (s : Upload) : Upload :=
  mkUpload (queueSize s) (partSize s) (leavePartsOnError s) (tags s)
    (params s) (totalBytes s) (bytesUploadedSoFar s) (aborted s) (onabort s)
    (concurrentUploaders s) (createMultiPartPromise s) (uploadedParts s)
    (uploadId s) (uploadEvent s) (isMultiPart s) (singleUploadResult s)
    (dataFeeder s) (feederClosing s) (main s) v (sent s) (progress s).

Definition set_sent (v : list Command) (s : Upload) : Upload :=
  mkUpload (queueSize s) (partSize s) (leavePartsOnError s) (tags s)
    (params s) (totalBytes s) (bytesUploadedSoFar s) (aborted s) (onabort s)
    (concurrentUploaders s) (createMultiPartPromise s) (uploadedParts s)
    (uploadId s) (uploadEvent s) (isMultiPart s) (singleUploadResult s)
    (dataFeeder s) (feederClosing s) (main s) (done_result s) v (progress s).

Definition set_progress (v : list Progress) (s : Upload) : Upload :=
  mkUpload (queueSize s) (partSize s) (leavePartsOnError s) (tags s)
    (params s) (totalBytes s) (bytesUploadedSoFar s) (aborted s) (onabort s)
    (concurrentUploaders s) (createMultiPartPromise s) (uploadedParts s)
    (uploadId s) (uploadEvent s) (isMultiPart s) (singleUploadResult s)
    (dataFeeder s) (feederClosing s) (main s) (done_result s) (sent s) v.

(** *** constructor and __validateInput *)

Definition too_small_error (partSize : Z) : JsError :=
  Error ("EntityTooSmall: Your proposed upload partsize [" +:+ pretty partSize
         +:+ "] is smaller than the minimum allowed size ["
         +:+ pretty MIN_PART_SIZE +:+ "] (5MB)").
Arguments too_small_error : simpl never.

Definition new_Upload (options : Options) : Result Upload :=
  let queueSize := if truthy (opt_queueSize options)
                   then default 0 (opt_queueSize options) else 4 in
  let partSize := if truthy (opt_partSize options)
                  then default 0 (opt_partSize options) else MIN_PART_SIZE in
  let leavePartsOnError := default false (opt_leavePartsOnError options) in
  let tags := default [] (opt_tags options) in
  match opt_params options with
  | None =>
      Throw (Error "InputError: Upload requires params to be passed to upload.")
  | Some params =>
      if negb (opt_client options) then
        Throw (Error "InputError: Upload requires a AWS client to do uploads with.")
      else if partSize <? MIN_PART_SIZE then
        Throw (too_small_error partSize)
      else if queueSize <? 1 then
        Throw (Error "Queue size: Must have at least one uploading queue.")
      else
        match byteLength (Body params) with
        | Throw e => Throw e
        | Ok totalBytes =>
            Ok (mkUpload queueSize partSize leavePartsOnError tags params
                  totalBytes 0 false false [] None [] None false true None
                  (opt_chunks options) false NotStarted None [] [])
        end
  end.

(** *** The steps of an upload *)

Inductive Label : Type :=
| LOn                                       (* the caller registers a listener *)
| LAbort                                    (* the caller calls abort() *)
| LDone                                     (* the caller calls done() *)
| LNext (i : nat)                           (* the feeder answers uploader i *)
| LClose                                    (* the feeder honours a return() *)
| LCreated (i : nat) (r : Result (option string))
| LPartSent (i : nat) (r : Result PartResult)
| LPutSent (i : nat) (r : Result (option string))
| LAllRejected (i : nat)                    (* Promise.all sees uploader i throw *)
| LAllResolved
| LCompleted (r : Result Output)
| LTagged (r : Result unit).

Definition AbortError_ : JsError := AbortError "Upload aborted.".

Definition set_uploader (i : nat) (u : Uploader) (s : Upload) : Upload :=
  set_concurrentUploaders (<[i:=u]> (concurrentUploaders s)) s.

(** Leaving the [for await] loop by [return] or [throw] makes it call the
    generator's [return()]. *)
Definition leave_loop (i : nat) (u : Uploader) (s : Upload) : Upload :=
  set_feederClosing true (set_uploader i u s).

Definition send (c : Command) (s : Upload) : Upload :=
  set_sent (sent s ++ [c]) s.

Definition __notifyProgress (p : Progress) (s : Upload) : Upload :=
  if uploadEvent s then set_progress (progress s ++ [p]) s else s.

(** The [catch] block of the loop body. *)
Definition catch_block (i : nat) (e : JsError) (s : Upload) : Upload :=
  if negb (truthy_str (uploadId s)) then leave_loop i (Threw e) s
  else if leavePartsOnError s then leave_loop i (Threw e) s
  else set_uploader i AtNext s.

Definition send_part (i : nat) (dataPart : RawDataPart) (s : Upload) : Upload :=
  set_uploader i (AwaitPart dataPart)
    (send (UploadPartCommand (uploadId s) (data dataPart) (partNumber dataPart)) s).

Definition keep_truthy (x : option string) : option string :=
  if truthy_str x then x else None.

Definition completed_part (dataPart : RawDataPart) (r : PartResult) : CompletedPart :=
  mkCompletedPart (partNumber dataPart) (res_ETag r)
    (keep_truthy (res_ChecksumCRC32 r)) (keep_truthy (res_ChecksumCRC32C r))
    (keep_truthy (res_ChecksumSHA1 r)) (keep_truthy (res_ChecksumSHA256 r)).

Definition exceeded_error (params : Params) : JsError :=
  Error ("Exceeded " +:+ pretty MAX_PARTS +:+ " as part of the upload to "
         +:+ default "undefined" (Key params) +:+ " and "
         +:+ default "undefined" (Bucket params) +:+ ".").
Arguments exceeded_error : simpl never.

(** The loop body of __doConcurrentUpload, from the top down to its first
    await. *)
Definition loop_body (i : nat) (dataPart : RawDataPart) (s : Upload) : Upload :=
  if MAX_PARTS <? Z.of_nat (length (uploadedParts s)) then
    leave_loop i (Threw (exceeded_error (params s))) s
  else if aborted s then leave_loop i Returned s
  else if (partNumber dataPart =? 1) && lastPart dataPart then
    (* __uploadUsingPut *)
    set_uploader i (AwaitPut dataPart)
      (send (PutObjectCommand (data dataPart)) (set_isMultiPart false s))
  else if negb (truthy_str (uploadId s)) then
    (* __createMultipartUpload *)
    set_uploader i (AwaitCreate dataPart)
      (match createMultiPartPromise s with
       | None => set_createMultiPartPromise (Some None)
                   (send CreateMultipartUploadCommand s)
       | Some _ => s
       end)
  else send_part i dataPart s.

(** The rest of __doMultipartUpload once it has a result. *)
Definition settle (r : Result (option Output)) (s : Upload) : Upload :=
  let s' := set_main (Settled r) s in
  match done_result s with
  | None => set_done_result (Some r) s'
  | Some _ => s'
  end.

Definition add_tags (result : option Output) (s : Upload) : Upload :=
  match tags s with
  | [] => settle (Ok result) s
  | _ :: _ => set_main (AwaitTagging result) (send (PutObjectTaggingCommand (tags s)) s)
  end.

(** [uploadedParts.sort((a, b) => a.PartNumber - b.PartNumber)] *)
Definition part_le (a b : CompletedPart) : Prop := PartNumber a <= PartNumber b.

#[export] Instance part_le_dec : RelDecision part_le :=
  fun a b => decide (PartNumber a <= PartNumber b).

Definition sort_parts (l : list CompletedPart) : list CompletedPart :=
  merge_sort part_le l.
Arguments sort_parts : simpl never.

Definition uploader_at (i : nat) (s : Upload) : option Uploader :=
  concurrentUploaders s !! i.

(** One step.  The steps follow a single call of done(): [LDone] is a step of
    an upload on which done() has not been called before.  [LPutSent] takes
    params.Key to be there, as __uploadUsingPut does ([Key!]). *)
Definition exec (l : Label) (s : Upload) : option Upload :=
  match l with
  | LOn => Some (set_uploadEvent true s)
  | LAbort =>
      let s' := set_aborted true s in
      Some (if onabort s then
              match done_result s with
              | None => set_done_result (Some (Throw AbortError_)) s'
              | Some _ => s'
              end
            else s')
  | LDone =>
      match main s with
      | NotStarted =>
          Some (set_onabort true
                  (set_main AwaitAll
                     (set_concurrentUploaders
                        (replicate (Z.to_nat (queueSize s)) AtNext) s)))
      | _ => None
      end
  | LNext i =>
      match uploader_at i s with
      | Some AtNext =>
          match dataFeeder s with
          | [] => Some (set_uploader i Returned s)
          | dataPart :: rest => Some (loop_body i dataPart (set_dataFeeder rest s))
          end
      | _ => None
      end
  | LClose =>
      if feederClosing s
      then Some (set_feederClosing false (set_dataFeeder [] s))
      else None
  | LCreated i r =>
      match uploader_at i s, createMultiPartPromise s with
      | Some (AwaitCreate dataPart), Some settled =>
          let r := default r settled in
          let s := set_createMultiPartPromise (Some (Some r)) s in
          Some match r with
               | Throw e => catch_block i e s
               | Ok id =>
                   let s := set_uploadId id s in
                   if aborted s then leave_loop i Returned s
                   else send_part i dataPart s
               end
      | _, _ => None
      end
  | LPartSent i r =>
      match uploader_at i s with
      | Some (AwaitPart dataPart) =>
          Some match r with
               | Throw e => catch_block i e s
               | Ok partResult =>
                   if aborted s then leave_loop i Returned s
                   else
                     let s := set_uploadedParts
                                (uploadedParts s ++ [completed_part dataPart partResult]) s in
                     match byteLength (data dataPart) with
                     | Throw e => catch_block i e s
                     | Ok n =>
                         let s := set_bytesUploadedSoFar (bytesUploadedSoFar s + n) s in
                         set_uploader i AtNext
                           (__notifyProgress
                              (mkProgress (bytesUploadedSoFar s) (totalBytes s)
                                 (partNumber dataPart)) s)
                     end
               end
      | _ => None
      end
  | LPutSent i r =>
      match uploader_at i s with
      | Some (AwaitPut dataPart) =>
          Some match r with
               | Throw e => catch_block i e s
               | Ok etag =>
                   let s := set_singleUploadResult
                              (Some (mkOutput etag (Bucket (params s)) (Key (params s)))) s in
                   match byteLength (data dataPart) with
                   | Throw e => catch_block i e s
                   | Ok totalSize =>
                       leave_loop i Returned
                         (__notifyProgress (mkProgress totalSize totalSize 1) s)
                   end
               end
      | _ => None
      end
  | LAllRejected i =>
      match main s, uploader_at i s with
      | AwaitAll, Some (Threw e) => Some (settle (Throw e) s)
      | _, _ => None
      end
  | LAllResolved =>
      match main s with
      | AwaitAll =>
          if forallb (fun u => match u with Returned => true | _ => false end)
               (concurrentUploaders s)
          then
            Some (if aborted s then settle (Throw AbortError_) s
                  else if isMultiPart s then
                    let s := set_uploadedParts (sort_parts (uploadedParts s)) s in
                    set_main AwaitComplete
                      (send (CompleteMultipartUploadCommand (uploadId s)
                               (uploadedParts s)) s)
                  else add_tags (singleUploadResult s) s)
          else None
      | _ => None
      end
  | LCompleted r =>
      match main s with
      | AwaitComplete =>
          Some match r with
               | Throw e => settle (Throw e) s
               | Ok result => add_tags (Some result) s
               end
      | _ => None
      end
  | LTagged r =>
      match main s with
      | AwaitTagging result =>
          Some match r with
               | Throw e => settle (Throw e) s
               | Ok _ => settle (Ok result) s
               end
      | _ => None
      end
  end.

(** A history of steps, oldest first. *)
Fixpoint run (ls : list Label) (s : Upload) : option Upload :=
  match ls with
  | [] => Some s
  | l :: ls' =>
      match exec l s with
      | Some s' => run ls' s'
      | None => None
      end
  end.

(** The part uploads started so far: UploadPart and single PutObject sends. *)
Definition is_part_upload (c : Command) : bool :=
  match c with
  | PutObjectCommand _ | UploadPartCommand _ _ _ => true
  | _ => false
  end.

Definition part_uploads (s : Upload) : list Command :=
  filter (fun c => is_part_upload c = true) (sent s).

(** How much an upload that is being cancelled still has to do. *)
Definition uploader_work (u : Uploader) : nat :=
  match u with
  | AtNext => 2
  | AwaitPut _ | AwaitCreate _ | AwaitPart _ => 3
  | Returned | Threw _ => 0
  end.

Definition main_work (s : Upload) : nat :=
  match main s with
  | NotStarted => 4 + 2 * Z.to_nat (queueSize s)
  | AwaitAll => 3
  | AwaitComplete => 2
  | AwaitTagging _ => 1
  | Settled _ => 0
  end.

Definition work (s : Upload) : nat :=
  (main_work s + sum_list (uploader_work <$> concurrentUploaders s)
   + (if feederClosing s then 1 else 0))%nat.

(** What holds of every state an upload can reach.  Before done() nothing
    has happened; done() installs the abort handler; and an upload that was
    cancelled before done() and has not settled yet has sent and committed
    nothing, with every uploader either about to ask for a part or gone. *)
Definition idle (u : Uploader) : Prop := u = AtNext \/ u = Returned.

Definition consistent (s : Upload) : Prop :=
  (main s = NotStarted ->
   onabort s = false /\ concurrentUploaders s = [] /\ uploadedParts s = []
   /\ done_result s = None)
  /\ (main s <> NotStarted -> onabort s = true)
  /\ (aborted s = true -> done_result s = None -> main s <> NotStarted ->
      main s = AwaitAll /\ uploadedParts s = []
      /\ Forall idle (concurrentUploaders s)).

(** An uploader that is past the check against MAX_PARTS and may still
    commit the part it holds. *)
Definition pending (u : Uploader) : nat :=
  match u with
  | AwaitCreate _ | AwaitPart _ => 1
  | _ => 0
  end.

(** What the check at the top of the loop does guarantee: every part that
    is committed, or may still be, was let through by a check that saw at
    most MAX_PARTS committed parts, and there are at most queueSize
    uploaders. *)
Definition within_limit (s : Upload) : Prop :=
  1 <= queueSize s
  /\ (length (concurrentUploaders s) <= Z.to_nat (queueSize s))%nat
  /\ Z.of_nat (length (uploadedParts s))
     + Z.of_nat (sum_list (pending <$> concurrentUploaders s))
     <= MAX_PARTS + Z.of_nat (length (concurrentUploaders s)).

(** A cancelled upload: done() has not settled, or has settled with the
    cancellation error. *)
Definition cancelled (s : Upload) : Prop :=
  aborted s = true
  /\ (done_result s = None \/ done_result s = Some (Throw AbortError_)).

End S3Upload.


(** ** Concrete inputs *)

Module Scenarios.

(** *** A three-byte file that is also served over HTTP *)

Definition sample : bytes := [Byte.x01; Byte.x02; Byte.x03].

Definition sample_world : Chunkers.World :=
  Chunkers.mkWorld {[ "/data/sample.bin" := sample ]}
    (fun _ _ => Chunkers.HttpResponse 200 (Some sample)) [] [] [].

(** *** Clients *)

Import Tdf3Client.

Definition sample_env : Env :=
  mkEnv (Ok (mkPemKeyPair "PUBLIC" "PRIVATE")) (Ok "SIGNING") (Ok tt)
    (fun s => s) (fun _ => Ok "KAS-PUBLIC-KEY")
    "00000000-0000-4000-8000-000000000000"
    (fun _ => Ok tt)
    (Ok (Chunkers.mkDecorated (Chunkers.mkStream 0 []) None None)).

(** Only the deprecated keyRewrapEndpoint is given. *)
Definition legacy_config : ClientConfig :=
  mkClientConfig None None (Some "client") None None None
    (Some "https://kas.example/api/kas/rewrap") None None (Some "refresh") None
    None None None None None None false.

(** Neither kasEndpoint nor keyRewrapEndpoint is given. *)
Definition no_kas_config : ClientConfig :=
  mkClientConfig None None (Some "client") None None None None None None
    (Some "refresh") None None None None None None None false.

Definition sample_config : ClientConfig :=
  mkClientConfig None None (Some "client") None (Some "https://kas.example/api/kas")
    None None None None (Some "refresh") None None None None None None None false.

(** A client without readerUrl, and one with. *)
Definition sample_client : Client :=
  mkClient "https://kas.example/api/kas" (Ok "KAS-PUBLIC-KEY") (Some "client")
    (Some (OIDCRefreshTokenProvider "client" "refresh" "")) None
    (Ok (mkSessionKeys (mkPemKeyPair "PUBLIC" "PRIVATE") None)) None false
    sample_config.

Definition html_client : Client :=
  mkClient "https://kas.example/api/kas" (Ok "KAS-PUBLIC-KEY") (Some "client")
    (Some (OIDCRefreshTokenProvider "client" "refresh" ""))
    (Some "https://reader.example/")
    (Ok (mkSessionKeys (mkPemKeyPair "PUBLIC" "PRIVATE") None)) None false
    sample_config.

Definition sample_params (html : bool) (size : Z) : EncryptParams :=
  mkEncryptParams None (mkPlaintextSource size) (Some html) None None None false
    None None None.

(** *** Uploads *)

Import S3Upload.

Definition full_part : BodyData := BodyBytes MIN_PART_SIZE.

(** A feeder of [n] full parts numbered from [k], the last one flagged. *)
Fixpoint parts_from (k : Z) (n : nat) : list RawDataPart :=
  match n with
  | O => []
  | S n' =>
      mkRawDataPart k full_part (match n' with O => true | S _ => false end)
      :: parts_from (k + 1) n'
  end.

(** A part that goes through UploadPart, not through the single PutObject. *)
Definition multipart (p : RawDataPart) : Prop :=
  (partNumber p =? 1) && lastPart p = false
  /\ byteLength (data p) = Ok MIN_PART_SIZE.

(** An upload of [n] parts through a single uploader. *)
Definition sequential_options (n : nat) : Options :=
  mkOptions (Some 1) None None None true
    (Some (mkParams (Some "bucket") (Some "key")
             (BodyBytes (Z.of_nat n * MIN_PART_SIZE))))
    (parts_from 1 n).

Definition part_ok : PartResult := mkPartResult (Some "etag") None None None None.

Definition complete_ok : Output :=
  mkOutput (Some "etag") (Some "bucket") (Some "key").

(** The uploader takes a part and S3 accepts it, [n] times over. *)
Fixpoint steady_schedule (n : nat) : list Label :=
  match n with
  | O => []
  | S n' => LNext 0 :: LPartSent 0 (Ok part_ok) :: steady_schedule n'
  end.

(** The whole history of such an upload when S3 accepts every command. *)
Definition sequential_schedule (n : nat) : list Label :=
  [LDone; LNext 0; LCreated 0 (Ok (Some "upload-id")); LPartSent 0 (Ok part_ok)]
  ++ steady_schedule (n - 1)
  ++ [LNext 0; LAllResolved; LCompleted (Ok complete_ok)].

(** Two uploaders at work on three parts when the caller cancels: one part
    upload is in flight, the other uploader still waits for the upload id. *)
Definition cancel_options : Options :=
  mkOptions (Some 2) None None None true
    (Some (mkParams (Some "bucket") (Some "key") (BodyBytes (3 * MIN_PART_SIZE))))
    (parts_from 1 3).

Definition before_cancel : list Label :=
  [LDone; LNext 0; LNext 1; LCreated 0 (Ok (Some "upload-id"))].

Definition after_cancel : list Label :=
  [LPartSent 0 (Ok part_ok); LCreated 1 (Ok (Some "upload-id")); LClose].

End Scenarios.

(** * Further definitions *)

(** ** What a server can answer to a chunk request *)

Module RemoteReplies.

Import Chunkers.

(** [Number.MAX_SAFE_INTEGER] and [Number.isSafeInteger]: the integers that
    a JavaScript number holds exactly, with exact sums and differences. *)
Definition MAX_SAFE_INTEGER : Z := 2 ^ 53 - 1.

Definition isSafeInteger (z : Z) : bool :=
  (- MAX_SAFE_INTEGER <=? z) && (z <=? MAX_SAFE_INTEGER).

(** A reply that makes axios reject: no response, or a status outside 2xx. *)
Definition rejected (reply : HttpReply) : bool :=
  match reply with
  | NetworkFailure => true
  | HttpResponse status _ => negb ((200 <=? status) && (status <? 300))
  end.

(** What axios rejects with for such a reply. *)
Definition rejection (reply : HttpReply) : JsError :=
  match reply with
  | NetworkFailure => AxiosError None
  | HttpResponse status _ => AxiosError (Some status)
  end.

(** The Range header that getRemoteChunk sends for its [range] argument. *)
Definition range_header (range : option string) : option string :=
  if truthy_str range then (fun r => "bytes=" +:+ r) <$> range else None.

(** A server that answers every request with status 503. *)
Definition unavailable_world : World :=
  mkWorld ∅ (fun _ _ => HttpResponse 503 None) [] [] [].

(** A server that fails twice and then answers with the sample content. *)
Definition flaky_world : World :=
  mkWorld ∅
    (fun n _ => if (n <? 2)%nat then NetworkFailure
                else HttpResponse 200 (Some Scenarios.sample))
    [] [] [].

(** The sample file after three more bytes were appended to it. *)
Definition grown_world : World :=
  mkWorld {[ "/data/sample.bin" :=
               Scenarios.sample ++ [Byte.x04; Byte.x05; Byte.x06] ]}
    (fun _ _ => NetworkFailure) [] [] [].

End RemoteReplies.

(** ** What a client has asked of its collaborators *)

Module ClientObservations.

Import Tdf3Client.

(** The key pairs and signing keys generated. *)
Definition generated (t : list Effect) : list Effect :=
  omap (fun e => match e with
                 | GenerateKeyPair | GenerateSigningKeys => Some e
                 | _ => None
                 end) t.

(** The calls of authProvider.updateClientPublicKey, with their arguments. *)
Definition public_key_updates (t : list Effect)
  : list (AuthProvider * string * option string) :=
  omap (fun e => match e with
                 | UpdateClientPublicKey provider encodedKey signingKeys =>
                     Some (provider, encodedKey, signingKeys)
                 | _ => None
                 end) t.

(** The TDF builders created and the policies set on them. *)
Definition tdfs_created (t : list Effect) : list unit :=
  omap (fun e => match e with TdfCreate => Some tt | _ => None end) t.

Definition policies_set (t : list Effect) : list Policy :=
  omap (fun e => match e with TdfSetPolicy p => Some p | _ => None end) t.

(** A KAS that cannot be reached. *)
Definition offline_env : Env :=
  mkEnv (Ok (mkPemKeyPair "PUBLIC" "PRIVATE")) (Ok "SIGNING") (Ok tt)
    (fun s => s) (fun _ => Throw (AxiosError None))
    "00000000-0000-4000-8000-000000000000"
    (fun _ => Ok tt)
    (Ok (Chunkers.mkDecorated (Chunkers.mkStream 0 []) None None)).

(** A configuration that brings its own key pair, with DPoP switched on and
    an auth provider of the caller. *)
Definition keypair_config : ClientConfig :=
  mkClientConfig (Some (mkPemKeyPair "MY-PUBLIC" "MY-PRIVATE")) None None
    (Some true) (Some "https://kas.example/api/kas") None None None None None
    None None None (Some (CustomProvider false "mine")) None None None false.

(** Only keyRewrapEndpoint is given, and it is just the suffix. *)
Definition bare_rewrap_config : ClientConfig :=
  mkClientConfig None None (Some "client") None None None (Some "/rewrap") None
    None (Some "refresh") None None None None None None None false.

(** Parameters of an encrypt call for a remote content access link. *)
Definition rca_params : EncryptParams :=
  mkEncryptParams (Some (mkScope None (Some "policy-1") None None))
    (mkPlaintextSource 11) None None None None true None None None.

End ClientObservations.

(** ** tdf3/src/client/index.ts: decrypt *)

Module Tdf3Decrypt.

Import Chunkers Tdf3Client.

(** What decrypt does to its collaborators.  The calls it shares with
    encrypt are the ones of [Effect]; TDF.readStream and
    EAS.fetchEntityObject are not among the sources and are recorded with
    their arguments. *)
Inductive DecryptEffect : Type :=
| Builder (e : Effect)
| FetchEntityObject (eas : EAS) (publicKey : string)
| TdfReadStream (chunker : Chunker) (rcaSource : bool) (progressHandler : bool)
                (fileStreamServiceWorker : option string).

(** What the two collaborators answer. *)
Record DecryptEnv : Type := mkDecryptEnv {
  env_fetchEntityObject : Result (option string);
  env_readStream : Result DecoratedReadableStream
}.

(** decrypt talks to its collaborators and, through makeChunkable, reads
    from the world of the chunkers. *)
Record DecryptState : Type := mkDecryptState {
  effects : list DecryptEffect;
  outside : World
}.

Abbreviation D := (Eff DecryptState).

Definition record (e : DecryptEffect) : D unit := fun s =>
  (Ok tt, mkDecryptState (effects s ++ [e]) (outside s)).

Definition in_world {A : Type} (m : M A) : D A := fun s =>
  let '(r, w) := m (outside s) in (r, mkDecryptState (effects s) w).

Record DecryptParams : Type := mkDecryptParams {
  dp_source : option DecryptSource;
  dp_rcaSource : bool                     (* whether a value was passed *)
}.

Definition decrypt (env : DecryptEnv) (this : Client) (params : DecryptParams)
  : D DecoratedReadableStream :=
  record (Builder AwaitSessionKeys);;
  sessionKeys ← await (sessionKeys this);
  entityObject ←
    match eas this with
    | Some e =>
        record (FetchEntityObject e (publicKey (keypair sessionKeys)));;
        await (env_fetchEntityObject env)
    | None => mret None
    end;
  record (Builder TdfCreate);;
  record (Builder (TdfSetPrivateKey (privateKey (keypair sessionKeys))));;
  record (Builder (TdfSetPublicKey (publicKey (keypair sessionKeys))));;
  record (Builder (TdfSetAuthProvider (authProvider this)));;
  match entityObject with
  | Some eo => record (Builder (TdfSetEntity eo))
  | None => mret tt
  end;;
  chunker ← in_world (makeChunkable (dp_source params));
  record (TdfReadStream chunker (dp_rcaSource params)
            (cfg_progressHandler (clientConfig this))
            (cfg_fileStreamServiceWorker (clientConfig this)));;
  await (env_readStream env).

(** The chunkers handed to TDF.readStream. *)
Definition chunkers_read (t : list DecryptEffect) : list Chunker :=
  omap (fun e => match e with
                 | TdfReadStream chunker _ _ _ => Some chunker
                 | _ => None
                 end) t.

(** The entity objects asked for. *)
Definition entity_fetches (t : list DecryptEffect) : list (EAS * string) :=
  omap (fun e => match e with
                 | FetchEntityObject eas publicKey => Some (eas, publicKey)
                 | _ => None
                 end) t.

(** A reader that answers with an empty plaintext stream. *)
Definition sample_decrypt_env : DecryptEnv :=
  mkDecryptEnv (Ok (Some "entity-object"))
    (Ok (mkDecorated (mkStream 1 []) None None)).

(** A client with an AppId auth provider, hence with an EAS. *)
Definition appid_client : Client :=
  mkClient "https://kas.example/api/kas" (Ok "KAS-PUBLIC-KEY") None
    (Some (CustomProvider true "appid")) None
    (Ok (mkSessionKeys (mkPemKeyPair "PUBLIC" "PRIVATE") None))
    (Some (mkEAS (CustomProvider true "appid") "https://eas.example/api/entityobject"))
    false Scenarios.sample_config.

End Tdf3Decrypt.

(** ** DecoratedReadableStream: toFile *)

Module StreamSinks.

Import Stdlib.Strings.Ascii.
Import Chunkers.

(** [filepath.split('.')]: the pieces between the dots, at least one. *)
Fixpoint split_dots (s : string) : list string :=
  match s with
  | EmptyString => [EmptyString]
  | String c rest =>
      if Ascii.eqb c "."%char then EmptyString :: split_dots rest
      else match split_dots rest with
           | piece :: pieces => String c piece :: pieces
           | [] => [String c EmptyString]
           end
  end.

(** [`.${filepath.split('.').pop()}`] *)
Definition extension_of (filepath : string) : string :=
  "." +:+ default "undefined" (last (split_dots filepath)).

(** A string without a dot. *)
Fixpoint dotless (s : string) : bool :=
  match s with
  | EmptyString => true
  | String c rest => negb (Ascii.eqb c "."%char) && dotless rest
  end.

(** The second argument of toFile: absent, an encoding, or an options
    object. *)
Inductive SinkOptions : Type :=
| OptionsAbsent
| OptionsEncoding (encoding : string)
| OptionsObject (encoding : option string) (signal : bool).

(** What toFile asks of browser-fs-access and streamsaver, none of which is
    among the sources. *)
Inductive SinkEffect : Type :=
| FileSave (body : bytes) (fileName : string) (extensions : list string)
| SetMitm (url : string)
| CreateWriteStream (filename : string) (size : option Z)
| PipeTo (body : list bytes) (options : SinkOptions)
| WriterWrite (chunk : bytes)
| WriterClose.

(** The browser toFile runs in.  [WritableStream] says whether the global of
    that name, taken to be declared, is truthy; [accepts] is what each
    request to a sink is answered with. *)
Record Browser : Type := mkBrowser {
  isFirefox : bool;
  WritableStream : bool;
  accepts : SinkEffect -> Result unit;
  sunk : list SinkEffect;
  streams : World
}.

Abbreviation B := (Eff Browser).

Definition sink (e : SinkEffect) : B unit := fun b =>
  (accepts b e,
   mkBrowser (isFirefox b) (WritableStream b) (accepts b) (sunk b ++ [e])
     (streams b)).

Definition set_streams (w : World) (b : Browser) : Browser :=
  mkBrowser (isFirefox b) (WritableStream b) (accepts b) (sunk b) w.

(** [new Response(stream)], read to its end: a stream that was already read
    is refused, a fresh one is consumed. *)
Definition read_Response (stream : ReadableStream) : B bytes := fun b =>
  let '(r, w) := streamToBuffer stream (streams b) in (r, set_streams w b).

(** A reader or a pipe takes what is left in the stream: all of it if the
    stream is fresh, nothing if it was read before. *)
Definition take_chunks (stream : ReadableStream) : B (list bytes) := fun b =>
  if bool_decide (stream_id stream ∈ disturbed (streams b)) then (Ok [], b)
  else
    (Ok (chunks stream),
     set_streams
       (mkWorld (files (streams b)) (http (streams b)) (requests (streams b))
          (console (streams b)) (stream_id stream :: disturbed (streams b))) b).

(** The instance, with the one further field that toFile reads. *)
Record Sinkable : Type := mkSinkable {
  decorated : DecoratedReadableStream;
  contentLength : option Z
}.

(** [pump]: write what the reader returns until it is done, then close. *)
Fixpoint pump (remaining : list bytes) : B unit :=
  match remaining with
  | [] => sink WriterClose
  | value :: rest => sink (WriterWrite value);; pump rest
  end.

Definition toFile (this : Sinkable) (filepath : option string)
    (options : SinkOptions) : B unit :=
  let filepath := default "download.tdf" filepath in
  match options with
  | OptionsEncoding (String _ _) =>
      throw (Error "Unsupported Operation: Cannot set encoding in browser")
  | _ =>
      firefox ← (fun b => (Ok (isFirefox b), b));
      if (firefox : bool) then
        body ← read_Response (stream (decorated this));
        sink (FileSave body filepath [extension_of filepath])
      else
        match fileStreamServiceWorker (decorated this) with
        | Some (String c url) => sink (SetMitm (String c url))
        | _ => mret tt
        end;;
        sink (CreateWriteStream filepath
                (if truthy (contentLength this) then contentLength this else None));;
        available ← (fun b => (Ok (WritableStream b), b));
        body ← take_chunks (stream (decorated this));
        if (available : bool) then sink (PipeTo body options)
        else pump body
  end.

(** A Firefox and another browser, both with fresh streams and willing
    sinks. *)
Definition firefox : Browser :=
  mkBrowser true true (fun _ => Ok tt) [] Scenarios.sample_world.

Definition old_browser : Browser :=
  mkBrowser false false (fun _ => Ok tt) [] Scenarios.sample_world.

Definition ciphertext : Sinkable :=
  mkSinkable
    (mkDecorated (mkStream 3 [Scenarios.sample; Scenarios.sample]) None
       (Some "https://host/mitm.html"))
    (Some 6).

End StreamSinks.

(** ** What an upload has sent and holds *)

Module UploadObservations.

Import S3Upload Scenarios.

(** The commands of each kind among those sent, oldest first. *)
Definition creates (s : Upload) : list unit :=
  omap (fun c => match c with
                 | CreateMultipartUploadCommand => Some tt
                 | _ => None
                 end) (sent s).

Definition completions (s : Upload) : list (option string * list CompletedPart) :=
  omap (fun c => match c with
                 | CompleteMultipartUploadCommand id parts => Some (id, parts)
                 | _ => None
                 end) (sent s).

Definition puts (s : Upload) : list BodyData :=
  omap (fun c => match c with
                 | PutObjectCommand body => Some body
                 | _ => None
                 end) (sent s).

Definition taggings (s : Upload) : list (list Tag) :=
  omap (fun c => match c with
                 | PutObjectTaggingCommand tagSet => Some tagSet
                 | _ => None
                 end) (sent s).

(** How often the caller calls done() in a history of steps. *)
Definition is_done (l : Label) : bool :=
  match l with
  | LDone => true
  | _ => false
  end.

Definition done_calls (ls : list Label) : nat :=
  length (filter (fun l => is_done l = true) ls).

(** [options.queueSize || 4] and [options.partSize || MIN_PART_SIZE] *)
Definition effective_queueSize (options : Options) : Z :=
  if truthy (opt_queueSize options) then default 0 (opt_queueSize options) else 4.

Definition effective_partSize (options : Options) : Z :=
  if truthy (opt_partSize options)
  then default 0 (opt_partSize options) else MIN_PART_SIZE.

(** How often part number [n] occurs in a list of numbers. *)
Definition occurrences (n : Z) (numbers : list Z) : nat :=
  sum_list ((fun m => if m =? n then 1%nat else 0%nat) <$> numbers).
Arguments occurrences : simpl never.

(** Whether an uploader holds a part numbered [n] that it may still commit. *)
Definition holds (n : Z) (u : Uploader) : nat :=
  match u with
  | AwaitCreate p | AwaitPart p => if partNumber p =? n then 1%nat else 0%nat
  | _ => 0%nat
  end.

(** The copies of part number [n] an upload has: committed, held by an
    uploader, or still to be yielded. *)
Definition copies (n : Z) (s : Upload) : nat :=
  (occurrences n (PartNumber <$> uploadedParts s)
   + sum_list (holds n <$> concurrentUploaders s)
   + occurrences n (partNumber <$> dataFeeder s))%nat.

(** The uploaders have all returned. *)
Definition all_returned (us : list Uploader) : Prop :=
  Forall (fun u => u = Returned) us.

(** The one part of a body that fits a single part. *)
Definition single_part (p : RawDataPart) : Prop :=
  partNumber p = 1 /\ lastPart p = true.

(** A command that an upload through PutObject may send. *)
Definition put_or_tagging (c : Command) : Prop :=
  match c with
  | PutObjectCommand _ | PutObjectTaggingCommand _ => True
  | _ => False
  end.

(** A PutObjectTagging command. *)
Definition tagging (c : Command) : Prop :=
  match c with
  | PutObjectTaggingCommand _ => True
  | _ => False
  end.

(** The steps of a three-part upload through one uploader up to the point
    where the completion has been sent and not yet answered. *)
Definition until_completion : list Label :=
  [LDone; LNext 0; LCreated 0 (Ok (Some "upload-id"));
   LPartSent 0 (Ok Scenarios.part_ok);
   LNext 0; LPartSent 0 (Ok Scenarios.part_ok);
   LNext 0; LPartSent 0 (Ok Scenarios.part_ok);
   LNext 0; LAllResolved].

(** *** What holds of every state an upload can reach *)

(** CreateMultipartUpload has been sent exactly when its promise exists. *)
Definition create_once (s : Upload) : Prop :=
  creates s = match createMultiPartPromise s with
              | None => []
              | Some _ => [tt]
              end.

(** A completion is sent once all uploaders have returned, with the parts
    committed by then, sorted, and only if no PutObject was sent. *)
Definition completion_ok (s : Upload) : Prop :=
  (isMultiPart s = true -> puts s = [])
  /\ (main s = NotStarted \/ main s = AwaitAll -> completions s = [])
  /\ (completions s = []
      \/ (completions s = [(uploadId s, uploadedParts s)]
          /\ Sorted part_le (uploadedParts s)
          /\ puts s = []
          /\ all_returned (concurrentUploaders s)
          /\ main s <> NotStarted /\ main s <> AwaitAll)).

(** Tagging follows where __doMultipartUpload stands. *)
Definition tagging_ok (s : Upload) : Prop :=
  match main s with
  | AwaitTagging _ => tags s <> [] /\ taggings s = [tags s]
  | Settled (Ok _) =>
      taggings s = match tags s with [] => [] | _ :: _ => [tags s] end
  | Settled (Throw _) =>
      taggings s = [] \/ (tags s <> [] /\ taggings s = [tags s])
  | _ => taggings s = []
  end
  /\ (forall out, done_result s = Some (Ok out) -> main s = Settled (Ok out)).

(** An uploader that waits for the answer to its PutObject. *)
Definition awaiting_put (u : Uploader) : nat :=
  match u with
  | AwaitPut _ => 1%nat
  | _ => 0%nat
  end.

(** Progress is reported to a listener only, and every report stands for a
    committed part or an answered PutObject. *)
Definition progress_ok (s : Upload) : Prop :=
  (uploadEvent s = false -> progress s = [])
  /\ (length (progress s) + sum_list (awaiting_put <$> concurrentUploaders s)
      <= length (uploadedParts s) + length (puts s))%nat.

(** An uploader that is not on the multipart path. *)
Definition multipart_free (u : Uploader) : Prop :=
  match u with
  | AwaitCreate _ | AwaitPart _ => False
  | _ => True
  end.

(** The states of an upload whose feeder yields the single part [p]. *)
Definition put_only (p : RawDataPart) (s : Upload) : Prop :=
  1 <= queueSize s
  /\ Forall put_or_tagging (sent s)
  /\ uploadedParts s = []
  /\ Forall multipart_free (concurrentUploaders s)
  /\ ((dataFeeder s = [p] /\ puts s = [] /\ isMultiPart s = true
       /\ feederClosing s = false
       /\ ((main s = NotStarted /\ concurrentUploaders s = [])
           \/ (main s = AwaitAll
               /\ concurrentUploaders s
                  = replicate (Z.to_nat (queueSize s)) AtNext)))
      \/ (dataFeeder s = []
          /\ (puts s = [] \/ puts s = [data p])
          /\ (isMultiPart s = true -> aborted s = true /\ puts s = []))).

(** *** Concrete uploads *)

(** An upload of three parts that is to be tagged. *)
Definition tagged_options : Options :=
  mkOptions (Some 1) None None (Some [mkTag "project" "tdf"]) true
    (Some (mkParams (Some "bucket") (Some "key") (BodyBytes (3 * MIN_PART_SIZE))))
    (parts_from 1 3).

Definition small_body : BodyData := BodyBytes 11.

(** A body of eleven bytes, two uploaders. *)
Definition single_options : Options :=
  mkOptions (Some 2) None None None true
    (Some (mkParams (Some "bucket") (Some "key") small_body))
    [mkRawDataPart 1 small_body true].

Definition single_schedule : list Label :=
  [LDone; LNext 0; LNext 1; LPutSent 0 (Ok (Some "etag")); LClose; LAllResolved].

End UploadObservations.

(** * Properties *)

(** ** Chunk sources *)

Module ChunkerProofs.

Import Chunkers Scenarios.

Lemma rel_index_inside (len i : Z) :
  0 <= i <= len -> rel_index len i = i.
Proof.
  intros Hi. unfold rel_index.
  destruct (Z.ltb_spec i 0); lia.
Qed.

Lemma rel_index_negative (len k : Z) :
  0 < k -> rel_index len (- k) = Z.max (len - k) 0.
Proof.
  intros Hk. unfold rel_index.
  destruct (Z.ltb_spec (- k) 0); [f_equal; lia | lia].
Qed.

(** Array slice on an in-range pair of bounds is the spec's [S[a:b]]. *)
Lemma slice_range (S : bytes) (a b : Z) :
  0 <= a <= b -> b <= Z.of_nat (length S) ->
  slice S (Some a) (Some b) = sub S a b.
Proof.
  intros Hab Hb. unfold slice, sub. cbn [from_option id].
  rewrite !rel_index_inside by lia.
  by rewrite Z.max_l by lia.
Qed.

Lemma slice_negative_start (S : bytes) (k : Z) :
  0 < k ->
  slice S (Some (- k)) None
  = suffix_from S (Z.max 0 (Z.of_nat (length S) - k)).
Proof.
  intros Hk. unfold slice, suffix_from. cbn [from_option id].
  rewrite rel_index_negative by done.
  rewrite rel_index_inside by lia.
  rewrite (Z.max_comm 0).
  apply take_ge. rewrite length_drop. lia.
Qed.

(** The in-memory chunker on an in-range pair of bounds. *)
Lemma fromBuffer_read_range (S : bytes) (a b : Z) (w : World) :
  0 <= a <= b -> b <= Z.of_nat (length S) ->
  fromBuffer S (Some a) (Some b) w = (Ok (sub S a b), w).
Proof.
  intros Hab Hb. unfold fromBuffer. by rewrite slice_range.
Qed.

(** Once the file is there, making a chunker for it reads its size. *)
Lemma fromNodeFile_run (filePath : string) (S : bytes) (w : World) :
  files w !! filePath = Some S ->
  fromNodeFile filePath w
  = (Ok (fromNodeFile_chunker filePath (Z.of_nat (length S))), w).
Proof.
  intros Hf. unfold fromNodeFile, mbind, Eff_bind, statSync_size.
  by rewrite Hf.
Qed.

(** The local-file chunker on a non-empty in-range pair of bounds. *)
Lemma fromNodeFile_read_range (filePath : string) (S : bytes) (a b : Z) (w : World) :
  files w !! filePath = Some S ->
  0 <= a < b -> b <= Z.of_nat (length S) ->
  fromNodeFile_chunker filePath (Z.of_nat (length S)) (Some a) (Some b) w
  = (Ok (sub S a b), w).
Proof.
  intros Hf Hab Hb.
  unfold fromNodeFile_chunker, or0, truthy. cbn [from_option id].
  assert ((b =? 0) = false) as -> by lia.
  rewrite andb_false_r.
  assert ((a <? 0) = false) as -> by lia.
  assert ((b <? 0) = false) as -> by lia.
  cbn [negb].
  unfold createReadStream.
  assert ((a <? 0) = false) as -> by lia.
  assert ((b - 1 <? 0) = false) as -> by lia.
  assert ((b - 1 <? a) = false) as -> by lia.
  cbn [orb]. rewrite Hf. unfold sub.
  do 3 f_equal. lia.
Qed.

(** An empty range at offset 0 is taken for "no bounds": the whole file. *)
Lemma fromNodeFile_read_0_0 (filePath : string) (fileSize : Z) (S : bytes) (w : World) :
  files w !! filePath = Some S ->
  fromNodeFile_chunker filePath fileSize (Some 0) (Some 0) w = (Ok S, w).
Proof.
  intros Hf. unfold fromNodeFile_chunker. cbn. unfold readFile. by rewrite Hf.
Qed.

(** An empty range further in makes createReadStream refuse its bounds. *)
Lemma fromNodeFile_read_empty_inside (filePath : string) (fileSize a : Z) (w : World) :
  0 < a ->
  fromNodeFile_chunker filePath fileSize (Some a) (Some a) w
  = (Throw (RangeError "ERR_OUT_OF_RANGE"), w).
Proof.
  intros Ha.
  unfold fromNodeFile_chunker, or0, truthy. cbn [from_option id].
  assert ((a =? 0) = false) as -> by lia.
  assert ((a <? 0) = false) as -> by lia.
  cbn [negb andb].
  unfold createReadStream.
  assert ((a <? 0) = false) as -> by lia.
  assert ((a - 1 <? a) = true) as -> by lia.
  by rewrite orb_true_r.
Qed.

(** C1, at its failing input.  Over the three-byte content S, the empty range
    read(0, 0) of the local-file chunker returns all of S, where the buffer
    chunker returns S[0:0], which is empty; and read(1, 1) makes the
    local-file chunker throw where the buffer chunker returns the empty
    S[1:1]. *)
Theorem fromNodeFile_empty_range_differs_from_fromBuffer :
  (chunker ← fromNodeFile "/data/sample.bin"; chunker (Some 0) (Some 0)) sample_world
    = (Ok sample, sample_world)
  /\ fromBuffer sample (Some 0) (Some 0) sample_world = (Ok [], sample_world)
  /\ sub sample 0 0 = []
  /\ (chunker ← fromNodeFile "/data/sample.bin"; chunker (Some 1) (Some 1)) sample_world
    = (Throw (RangeError "ERR_OUT_OF_RANGE"), sample_world)
  /\ fromBuffer sample (Some 1) (Some 1) sample_world = (Ok (sub sample 1 1), sample_world).
Proof.
  assert (files sample_world !! "/data/sample.bin" = Some sample) as Hf
    by (vm_compute; reflexivity).
  split; [| split; [| split; [| split]]].
  - unfold mbind, Eff_bind. rewrite (fromNodeFile_run _ _ _ Hf).
    by apply fromNodeFile_read_0_0.
  - by rewrite fromBuffer_read_range.
  - reflexivity.
  - unfold mbind, Eff_bind. rewrite (fromNodeFile_run _ _ _ Hf).
    by apply fromNodeFile_read_empty_inside.
  - by apply fromBuffer_read_range.
Qed.

(** C6.  For content S of size n and k > 0, read(-k) with no end returns the
    suffix S[max(0, n - k):], both from the in-memory chunker over S and from
    the local-file chunker made for a file that holds S. *)
Theorem read_negative_start_returns_suffix
    (S : bytes) (k : Z) (filePath : string) (w : World) :
  0 < k ->
  files w !! filePath = Some S ->
  fromBuffer S (Some (- k)) None w
    = (Ok (suffix_from S (Z.max 0 (Z.of_nat (length S) - k))), w)
  /\ (chunker ← fromNodeFile filePath; chunker (Some (- k)) None) w
    = (Ok (suffix_from S (Z.max 0 (Z.of_nat (length S) - k))), w).
Proof.
  intros Hk Hf. split.
  - unfold fromBuffer. by rewrite slice_negative_start.
  - unfold mbind, Eff_bind. rewrite (fromNodeFile_run _ _ _ Hf).
    unfold fromNodeFile_chunker, or0, truthy. cbn [from_option id].
    assert ((- k =? 0) = false) as -> by lia.
    assert ((- k <? 0) = true) as -> by lia.
    cbn [negb andb].
    unfold createReadStream.
    assert ((Z.max 0 (Z.of_nat (length S) - Z.abs (- k)) <? 0) = false) as -> by lia.
    rewrite Hf. unfold suffix_from.
    rewrite Z.abs_opp, (Z.abs_eq k) by lia.
    do 2 f_equal. apply take_ge. rewrite length_drop. lia.
Qed.

Lemma read_negative_start_returns_suffix_witness :
  fromBuffer sample (Some (- 2)) None sample_world
    = (Ok [Byte.x02; Byte.x03], sample_world)
  /\ (chunker ← fromNodeFile "/data/sample.bin"; chunker (Some (- 2)) None) sample_world
    = (Ok [Byte.x02; Byte.x03], sample_world).
Proof.
  apply (read_negative_start_returns_suffix sample 2 "/data/sample.bin" sample_world).
  - lia.
  - vm_compute; reflexivity.
Defined.

(** A remote chunker asked for "everything up to five bytes before the end"
    without a start sends a plain GET and returns what the server sends. *)
Example fromUrl_no_start_negative_end :
  let '(r, w') := fromUrl_chunker "https://host/file" None (Some (- 5)) sample_world in
  r = Ok sample /\ requests w' = [mkRequest "https://host/file" None].
Proof. vm_compute. done. Qed.




(** The class has no method toBuffer. *)
Lemma DecoratedReadableStream_has_no_toBuffer (d : DecoratedReadableStream) :
  has_property (LDecorated d) "toBuffer" = false
  /\ isDecoratedReadableStream (LDecorated d) = true.
Proof. split; vm_compute; reflexivity. Qed.

(** C7, at its failing inputs.  For a data source of type 'stream' whose
    location is an instance of DecoratedReadableStream, fromDataSource passes
    the isDecoratedReadableStream check and then throws a TypeError, because
    the class has no toBuffer method: no chunker is returned and the stream
    is not read. *)
Theorem fromDataSource_stream_instance_throws
    (d : DecoratedReadableStream) (w : World) :
  fromDataSource (mkDataSource "stream" (LDecorated d)) w
  = (Throw (TypeError "location.toBuffer is not a function"), w).
Proof. reflexivity. Qed.

(** What the 'stream' case does for an object that does bring a toBuffer
    method next to toFile: the chunker is the in-memory one over the bytes
    the method resolves to. *)
Lemma fromDataSource_stream_with_toBuffer
    (methods : gmap string (M bytes)) (toBuffer : M bytes) (b : bytes) (w w' : World) :
  is_Some (methods !! "toFile") ->
  methods !! "toBuffer" = Some toBuffer ->
  toBuffer w = (Ok b, w') ->
  fromDataSource (mkDataSource "stream" (LObject methods)) w
  = (Ok (fromBuffer b), w').
Proof.
  intros HtoFile HtoBuffer Hrun.
  unfold fromDataSource. cbn [type location String.eqb Ascii.eqb Bool.eqb].
  unfold isDecoratedReadableStream, has_property.
  rewrite (bool_decide_eq_true_2 _ HtoFile). cbn [orb andb negb].
  assert (bool_decide ("toString" ∈ Object_prototype_methods) = true) as ->
    by (vm_compute; reflexivity).
  rewrite orb_true_r. cbn [negb].
  unfold mbind, Eff_bind, call_toBuffer, has_property.
  rewrite (bool_decide_eq_true_2 _ (mk_is_Some _ _ HtoBuffer)).
  cbn [orb]. rewrite HtoBuffer. cbn [from_option id]. by rewrite Hrun.
Qed.

(** The sibling path in client/index.ts: makeChunkable drains a stream that
    has not been read yet into a buffer and returns the in-memory chunker
    over all of its bytes. *)
Lemma makeChunkable_stream (location : ReadableStream) (w : World) :
  stream_id location ∉ disturbed w ->
  exists w' : World,
    Tdf3Client.makeChunkable (Some (Tdf3Client.DecryptStream location)) w
    = (Ok (fromBuffer (concat (chunks location))), w')
    /\ disturbed w' = stream_id location :: disturbed w.
Proof.
  intros Hfresh. unfold Tdf3Client.makeChunkable, mbind, Eff_bind, streamToBuffer.
  rewrite (bool_decide_eq_false_2 _ Hfresh). by eexists.
Qed.

End ChunkerProofs.

(** ** The TDF3 client *)

Module ClientProofs.

Import Tdf3Client Scenarios.

Lemma bind_Ok_inv {S A B : Type} (m : Eff S A) (f : A -> Eff S B) (w w' : S) (b : B) :
  (m ≫= f) w = (Ok b, w') ->
  exists a w1, m w = (Ok a, w1) /\ f a w1 = (Ok b, w').
Proof.
  unfold mbind, Eff_bind. destruct (m w) as [[a | e] w1]; [eauto | discriminate].
Qed.

Lemma string_length_app (s1 s2 : string) :
  String.length (s1 +:+ s2) = (String.length s1 + String.length s2)%nat.
Proof. induction s1 as [| c s1 IH]; [reflexivity | simpl; by f_equal]. Qed.

(** *** The regular expression of the constructor *)

Lemma replace_rewrap_suffix_app (p : string) :
  replace_rewrap_suffix (p +:+ "/rewrap") = p.
Proof.
  induction p as [| c p IH]; [reflexivity |].
  change (String c p +:+ "/rewrap") with (String c (p +:+ "/rewrap")).
  cbn [replace_rewrap_suffix]. rewrite IH.
  destruct (String.eqb_spec (String c (p +:+ "/rewrap")) "/rewrap") as [Heq | _];
    [| reflexivity].
  apply (f_equal String.length) in Heq.
  cbn [String.length] in Heq. rewrite string_length_app in Heq. cbn in Heq. lia.
Qed.

Lemma replace_rewrap_suffix_id (s : string) :
  (forall p, s <> p +:+ "/rewrap") -> replace_rewrap_suffix s = s.
Proof.
  induction s as [| c s IH]; intros Hno; [reflexivity |].
  cbn [replace_rewrap_suffix].
  destruct (String.eqb_spec (String c s) "/rewrap") as [Heq | _].
  - by destruct (Hno "").
  - f_equal. apply IH. intros p ->. by apply (Hno (String c p)).
Qed.

(** *** constructor *)

(** The constructor's first step: which endpoint [this.kasEndpoint] gets. *)
Lemma Client_new_kasEndpoint (env : Env) (config : ClientConfig)
    (t t' : list Effect) (client : Client) :
  Client_new env config t = (Ok client, t') ->
  kasEndpoint client
  = if truthy_str (cfg_kasEndpoint config)
    then default "" (cfg_kasEndpoint config)
    else replace_rewrap_suffix (default "" (cfg_keyRewrapEndpoint config)).
Proof.
  unfold Client_new. intros Hrun.
  apply bind_Ok_inv in Hrun as (k & t1 & Hk & Hrun).
  repeat (apply bind_Ok_inv in Hrun as (? & ? & _ & Hrun)).
  injection Hrun as <- _. cbn [kasEndpoint].
  destruct config; cbn in *.
  destruct (truthy_str _); [by injection Hk |].
  destruct (negb _); [discriminate Hk | by injection Hk].
Qed.

(** C9.  With no kasEndpoint in the config (absent, or the empty string):
    if keyRewrapEndpoint is given, the constructed instance's kasEndpoint is
    keyRewrapEndpoint without a trailing '/rewrap', and keyRewrapEndpoint
    itself when it does not end in '/rewrap'; if keyRewrapEndpoint is absent
    too, the constructor throws Error('KAS definition not found') and has
    done nothing to its collaborators by then. *)
Theorem constructor_kasEndpoint_fallback
    (env : Env) (config : ClientConfig) (t : list Effect) :
  truthy_str (cfg_kasEndpoint config) = false ->
  (forall r : string,
      cfg_keyRewrapEndpoint config = Some r -> r <> "" ->
      forall (client : Client) (t' : list Effect),
        Client_new env config t = (Ok client, t') ->
        (forall p, r = p +:+ "/rewrap" -> kasEndpoint client = p)
        /\ ((forall p, r <> p +:+ "/rewrap") -> kasEndpoint client = r))
  /\ (truthy_str (cfg_keyRewrapEndpoint config) = false ->
      Client_new env config t = (Throw (Error "KAS definition not found"), t)).
Proof.
  intros Hkas. split.
  - intros r Hr _ client t' Hrun.
    apply Client_new_kasEndpoint in Hrun. rewrite Hkas, Hr in Hrun.
    cbn [from_option id] in Hrun. rewrite Hrun. split.
    + intros p ->. apply replace_rewrap_suffix_app.
    + apply replace_rewrap_suffix_id.
  - intros Hrewrap. unfold Client_new.
    destruct config; cbn in *. by rewrite Hkas, Hrewrap.
Qed.

Lemma constructor_kasEndpoint_fallback_witness :
  (exists (client : Client) (t' : list Effect),
      Client_new sample_env legacy_config [] = (Ok client, t')
      /\ kasEndpoint client = "https://kas.example/api/kas")
  /\ Client_new sample_env no_kas_config [GenerateKeyPair]
     = (Throw (Error "KAS definition not found"), [GenerateKeyPair]).
Proof.
  split.
  - eexists _, _. split; [vm_compute; reflexivity |].
    refine (proj1 (proj1 (constructor_kasEndpoint_fallback sample_env legacy_config []
                            eq_refl)
                     "https://kas.example/api/kas/rewrap" eq_refl _ _ _ _)
              "https://kas.example/api/kas" eq_refl).
    + discriminate.
    + vm_compute; reflexivity.
  - apply (proj2 (constructor_kasEndpoint_fallback sample_env no_kas_config
                    [GenerateKeyPair] eq_refl)).
    reflexivity.
Defined.

(** *** encrypt *)

Lemma key_access_added_snoc (t : list Effect) (e : Effect) :
  key_access_added (t ++ [e])
  = key_access_added t
    ++ match e with TdfAddKeyAccess ka => [ka] | _ => [] end.
Proof. unfold key_access_added. rewrite omap_app. by destruct e. Qed.

Lemma byte_limits_handed_snoc (t : list Effect) (e : Effect) :
  byte_limits_handed (t ++ [e])
  = byte_limits_handed t
    ++ match e with TdfWriteStream l _ _ _ => [l] | _ => [] end.
Proof. unfold byte_limits_handed. rewrite omap_app. by destruct e. Qed.

(** C10.  A call of encrypt with asHtml = true throws before it awaits the
    session keys or builds a policy, and without any other effect, when the
    client has no readerUrl or when an rcaSource is passed as well. *)
Theorem encrypt_asHtml_throws_early
    (env : Env) (this : Client) (params : EncryptParams) (t : list Effect) :
  asHtml params = Some true ->
  truthy_str (readerUrl this) = false \/ rcaSource params = true ->
  exists e : JsError, encrypt env this params t = (Throw e, t).
Proof.
  intros Hhtml Hwhy. unfold encrypt. rewrite Hhtml. cbn [from_option id].
  destruct (rcaSource params) eqn:Hrca.
  - by eexists.
  - destruct Hwhy as [Hreader | ?]; [| done]. rewrite Hreader. by eexists.
Qed.


Ltac run_encrypt H :=
  unfold encrypt, TDF_writeStream in H;
  unfold mbind, Eff_bind, mret, Eff_ret, emit, await, throw in H;
  repeat (case_match; simplify_eq).

(** A call of encrypt that passes the argument checks, on a client whose
    session keys and KAS public key are there, and whose key access is
    accepted, ends in the call of the writer: what the writer answers is what
    encrypt answers, with the policy's uuid put on the stream of an rca call. *)
Lemma encrypt_ends_in_writeStream
    (env : Env) (this : Client) (params : EncryptParams) (t : list Effect)
    (keys : SessionKeys) (kasKey : string) :
  (default false (asHtml params) = true ->
   rcaSource params = false /\ truthy_str (readerUrl this) = true) ->
  (rcaSource params = true -> kasEndpoint this <> "") ->
  sessionKeys this = Ok keys ->
  kasPublicKey this = Ok kasKey ->
  env_addKeyAccess env
    (mkKeyAccessParams (if default false (offline params) then "wrapped" else "remote")
       (kasEndpoint this) kasKey (metadata params)) = Ok tt ->
  exists t1 : list Effect,
    byte_limits_handed t1 = byte_limits_handed t
    /\ encrypt env this params t
       = (stream ← TDF_writeStream env (source params)
                     (if default false (asHtml params)
                      then HTML_BYTE_LIMIT else GLOBAL_BYTE_LIMIT)
                     (rcaSource params) (payloadKey params)
                     (cfg_progressHandler (clientConfig this));
          if rcaSource params then
            mret (Chunkers.mkDecorated (Chunkers.stream stream)
                    (Some (uuid (_createPolicyObject env
                                   (default (mkScope None None (Some []) (Some []))
                                      (scope params)))))
                    (Chunkers.fileStreamServiceWorker stream))
          else mret stream) t1.
Proof.
  intros Hhtml Hrca Hkeys Hkas Hadd.
  unfold encrypt. rewrite Hkeys, Hkas.
  unfold mbind, Eff_bind, mret, Eff_ret, emit, await, throw.
  destruct (default false (asHtml params)) eqn:Has.
  - destruct Hhtml as [Hr Hreader]; [done|]. rewrite Hr, Hreader.
    cbn [negb andb].
    destruct (eo params); rewrite Hadd.
    + eexists. split; [|reflexivity].
      by rewrite !byte_limits_handed_snoc, !app_nil_r.
    + eexists. split; [|reflexivity].
      by rewrite !byte_limits_handed_snoc, !app_nil_r.
  - assert (rcaSource params && (kasEndpoint this =? "")%string = false) as ->.
    { destruct (rcaSource params); [|done].
      cbn [andb]. apply String.eqb_neq. by apply Hrca. }
    destruct (eo params); rewrite Hadd.
    + eexists. split; [|reflexivity].
      by rewrite !byte_limits_handed_snoc, !app_nil_r.
    + eexists. split; [|reflexivity].
      by rewrite !byte_limits_handed_snoc, !app_nil_r.
Qed.

Lemma byte_limits_as_spec (html : bool) :
  (if html then HTML_BYTE_LIMIT else GLOBAL_BYTE_LIMIT)
  = (if html then 100 * 10 ^ 6 else 64 * 10 ^ 9).
Proof. by destruct html. Qed.

(** C3.  Whatever a call of encrypt does, it hands the writer at most one
    byte limit, and that limit is 100 * 10^6 when asHtml is true and
    64 * 10^9 otherwise; a call that returns a stream has handed it; and when
    the plaintext is larger than that limit the call fails.  A call that
    passes the argument checks, on a client whose session keys and KAS public
    key are there and whose key access is accepted, does hand that limit
    over: the call of the writer is the last thing it does, with the limit,
    the rca flag, the payload key and the progress handler; when the
    plaintext is larger than the limit the writer fails and encrypt fails
    with the writer's error, and otherwise encrypt answers what the writer
    answers, with the policy's uuid put on the stream of an rca call. *)
Theorem encrypt_byte_limit
    (env : Env) (this : Client) (params : EncryptParams) (t t' : list Effect)
    (r : Result Chunkers.DecoratedReadableStream) :
  encrypt env this params t = (r, t') ->
  let limit := if default false (asHtml params)
               then 100 * 10 ^ 6 else 64 * 10 ^ 9 in
  (exists l : list Z,
     byte_limits_handed t' = byte_limits_handed t ++ l
     /\ (l = [] \/ l = [limit])
     /\ (forall stream, r = Ok stream -> l = [limit])
     /\ (limit < plaintext_size (source params) -> exists e, r = Throw e))
  /\ (forall (keys : SessionKeys) (kasKey : string),
        (default false (asHtml params) = true ->
         rcaSource params = false /\ truthy_str (readerUrl this) = true) ->
        (rcaSource params = true -> kasEndpoint this <> "") ->
        sessionKeys this = Ok keys ->
        kasPublicKey this = Ok kasKey ->
        env_addKeyAccess env
          (mkKeyAccessParams
             (if default false (offline params) then "wrapped" else "remote")
             (kasEndpoint this) kasKey (metadata params)) = Ok tt ->
        exists t1 : list Effect,
          byte_limits_handed t1 = byte_limits_handed t
          /\ t' = t1 ++ [TdfWriteStream limit (rcaSource params) (payloadKey params)
                           (cfg_progressHandler (clientConfig this))]
          /\ (limit < plaintext_size (source params) ->
              TDF_writeStream env (source params) limit (rcaSource params)
                (payloadKey params) (cfg_progressHandler (clientConfig this)) t1
              = (r, t')
              /\ exists e, r = Throw e)
          /\ (plaintext_size (source params) <= limit ->
              r = match env_write env with
                  | Ok stream =>
                      Ok (if rcaSource params then
                            Chunkers.mkDecorated (Chunkers.stream stream)
                              (Some (uuid (_createPolicyObject env
                                             (default (mkScope None None (Some []) (Some []))
                                                (scope params)))))
                              (Chunkers.fileStreamServiceWorker stream)
                          else stream)
                  | Throw e => Throw e
                  end)).
Proof.
  intros Hrun limit. split.
  - run_encrypt Hrun.
    all: rewrite ?byte_limits_handed_snoc, ?app_nil_r.
    all: first
      [ exists [limit]; split; [reflexivity |]; split; [by right |]; split; [done |]
      | exists []; split; [by rewrite app_nil_r |]; split; [by left |];
        split; [intros ? [=] |] ].
    all: intros Hbig; first [ by eexists | exfalso ].
    all: subst limit; unfold GLOBAL_BYTE_LIMIT, HTML_BYTE_LIMIT in *; lia.
  - intros keys kasKey Hhtml Hrca Hkeys Hkas Hadd.
    destruct (encrypt_ends_in_writeStream env this params t keys kasKey
                Hhtml Hrca Hkeys Hkas Hadd) as (t1 & Ht1 & Hwrite).
    rewrite Hrun, byte_limits_as_spec in Hwrite. fold limit in Hwrite.
    exists t1. split; [done|].
    unfold TDF_writeStream, mbind, Eff_bind, mret, Eff_ret, emit, await, throw
      in Hwrite |- *.
    destruct (Z.ltb_spec limit (plaintext_size (source params))) as [Hbig|Hfits].
    + injection Hwrite as -> ->. split; [done|]. split; [|lia].
      intros _. split; [done|]. by eexists.
    + destruct (env_write env) as [stream|e]; destruct (rcaSource params);
        injection Hwrite as -> ->; (split; [done|]); (split; [lia|]); done.
Qed.

Lemma encrypt_byte_limit_witness :
  (byte_limits_handed
     (snd (encrypt sample_env html_client (sample_params true 100000001) []))
   = [100000000]
   /\ exists e : JsError,
       fst (encrypt sample_env html_client (sample_params true 100000001) [])
       = Throw e)
  /\ (byte_limits_handed
        (snd (encrypt sample_env sample_client (sample_params false 64000000001) []))
      = [64000000000]
      /\ exists e : JsError,
          fst (encrypt sample_env sample_client (sample_params false 64000000001) [])
          = Throw e)
  /\ fst (encrypt sample_env sample_client (sample_params false 64000000000) [])
     = env_write sample_env.
Proof.
  split; [|split].
  - destruct (proj2 (encrypt_byte_limit sample_env html_client
                       (sample_params true 100000001) [] _ _
                       (surjective_pairing _))
                (mkSessionKeys (mkPemKeyPair "PUBLIC" "PRIVATE") None)
                "KAS-PUBLIC-KEY")
      as (t1 & Ht1 & Ht' & Hbig & _).
    + intros _. split; reflexivity.
    + discriminate.
    + reflexivity.
    + reflexivity.
    + reflexivity.
    + split.
      * rewrite Ht', byte_limits_handed_snoc, Ht1. reflexivity.
      * apply Hbig. vm_compute; reflexivity.
  - destruct (proj2 (encrypt_byte_limit sample_env sample_client
                       (sample_params false 64000000001) [] _ _
                       (surjective_pairing _))
                (mkSessionKeys (mkPemKeyPair "PUBLIC" "PRIVATE") None)
                "KAS-PUBLIC-KEY")
      as (t1 & Ht1 & Ht' & Hbig & _).
    + discriminate.
    + discriminate.
    + reflexivity.
    + reflexivity.
    + reflexivity.
    + split.
      * rewrite Ht', byte_limits_handed_snoc, Ht1. reflexivity.
      * apply Hbig. vm_compute; reflexivity.
  - destruct (proj2 (encrypt_byte_limit sample_env sample_client
                       (sample_params false 64000000000) [] _ _
                       (surjective_pairing _))
                (mkSessionKeys (mkPemKeyPair "PUBLIC" "PRIVATE") None)
                "KAS-PUBLIC-KEY")
      as (t1 & _ & _ & _ & Hfits).
    + discriminate.
    + discriminate.
    + reflexivity.
    + reflexivity.
    + reflexivity.
    + apply Hfits. vm_compute; discriminate.
Defined.

(** C4 as stated fails: a call that is turned away by the argument checks
    adds no key-access entry. *)
Lemma encrypt_may_add_no_key_access :
  ~ (forall (env : Env) (this : Client) (params : EncryptParams)
            (t t' : list Effect) (r : Result Chunkers.DecoratedReadableStream),
        encrypt env this params t = (r, t') ->
        exists ka : KeyAccessParams,
          key_access_added t' = key_access_added t ++ [ka]).
Proof.
  intros H.
  destruct (H sample_env sample_client (sample_params true 11) [] _ _
              (surjective_pairing _)) as [ka Hka].
  vm_compute in Hka. discriminate Hka.
Qed.

(** C4, amended.  A call of encrypt that passes the argument checks (with
    asHtml: no rcaSource and a readerUrl; with rcaSource: a kasEndpoint), on a
    client whose session keys and KAS public key are there, asks for exactly
    one key-access entry: type "wrapped" when offline is true and "remote"
    when it is false or absent, url the client's kasEndpoint, publicKey the
    client's KAS public key. *)
Theorem encrypt_adds_one_key_access
    (env : Env) (this : Client) (params : EncryptParams) (t t' : list Effect)
    (r : Result Chunkers.DecoratedReadableStream)
    (keys : SessionKeys) (kasKey : string) :
  (default false (asHtml params) = true ->
   rcaSource params = false /\ truthy_str (readerUrl this) = true) ->
  (rcaSource params = true -> kasEndpoint this <> "") ->
  sessionKeys this = Ok keys ->
  kasPublicKey this = Ok kasKey ->
  encrypt env this params t = (r, t') ->
  key_access_added t'
  = key_access_added t
    ++ [mkKeyAccessParams
          (if default false (offline params) then "wrapped" else "remote")
          (kasEndpoint this) kasKey (metadata params)].
Proof.
  intros Hhtml Hrca Hkeys Hkas Hrun.
  run_encrypt Hrun.
  all: try (destruct Hhtml as [? Hreader]; [done |];
            first [congruence | by rewrite Hreader in *]).
  all: try match goal with
           | H : _ && (_ =? _)%string = true |- _ =>
               apply andb_true_iff in H as [Hr He];
               apply String.eqb_eq in He; by destruct (Hrca Hr)
           end.
  all: rewrite ?key_access_added_snoc, ?app_nil_r; try done.
Qed.

Lemma encrypt_adds_one_key_access_witness :
  key_access_added
    (snd (encrypt sample_env sample_client (sample_params false 11) []))
  = [mkKeyAccessParams "remote" "https://kas.example/api/kas" "KAS-PUBLIC-KEY" None].
Proof.
  apply (encrypt_adds_one_key_access sample_env sample_client
           (sample_params false 11) [] _
           (fst (encrypt sample_env sample_client (sample_params false 11) []))
           (mkSessionKeys (mkPemKeyPair "PUBLIC" "PRIVATE") None)
           "KAS-PUBLIC-KEY").
  - discriminate.
  - discriminate.
  - reflexivity.
  - reflexivity.
  - apply surjective_pairing.
Defined.

Lemma encrypt_asHtml_throws_early_witness :
  exists e : JsError,
    encrypt sample_env sample_client (sample_params true 11) [] = (Throw e, []).
Proof.
  apply (encrypt_asHtml_throws_early sample_env sample_client (sample_params true 11) []).
  - reflexivity.
  - left. reflexivity.
Defined.

End ClientProofs.

(** ** The multipart uploader *)

Module UploadProofs.

Import S3Upload Scenarios.

Ltac unfold_setters :=
  unfold set_bytesUploadedSoFar, set_aborted, set_onabort,
    set_concurrentUploaders, set_createMultiPartPromise, set_uploadedParts,
    set_uploadId, set_uploadEvent, set_isMultiPart, set_singleUploadResult,
    set_dataFeeder, set_feederClosing, set_main, set_done_result, set_sent,
    set_progress in *.

Ltac unfold_steps :=
  unfold exec, loop_body, catch_block, leave_loop, send_part, add_tags, settle,
    set_uploader, send, __notifyProgress, uploader_at in *.

(** Case analysis on one step of the state [s]. *)
Ltac exec_cases s :=
  destruct s; unfold_steps; unfold_setters; cbn in *;
  repeat (case_match; simplify_eq; cbn in * );
  simplify_eq; cbn in *.

(** *** Cancellation *)

(** In a cancelled upload no step starts a part upload or commits a part. *)
Lemma exec_aborted (l : Label) (s s' : Upload) :
  aborted s = true ->
  exec l s = Some s' ->
  aborted s' = true
  /\ part_uploads s' = part_uploads s
  /\ uploadedParts s' = uploadedParts s.
Proof.
  intros Ha Hexec. destruct l; exec_cases s; unfold part_uploads; cbn;
    rewrite ?filter_app, ?app_nil_r; cbn; rewrite ?app_nil_r; done.
Qed.

Lemma run_aborted (ls : list Label) (s s' : Upload) :
  aborted s = true ->
  run ls s = Some s' ->
  aborted s' = true
  /\ part_uploads s' = part_uploads s
  /\ uploadedParts s' = uploadedParts s.
Proof.
  revert s. induction ls as [| l ls IH]; intros s Ha Hrun; cbn in Hrun.
  - by simplify_eq.
  - destruct (exec l s) as [s1 |] eqn:Hexec; [| done].
    destruct (exec_aborted _ _ _ Ha Hexec) as (Ha1 & Hp1 & Hu1).
    destruct (IH _ Ha1 Hrun) as (? & ? & ?). split; [done |]. split; congruence.
Qed.

(** abort() itself only raises the flag and, with the handler installed,
    settles a pending done(). *)
Lemma exec_abort (s s' : Upload) :
  exec LAbort s = Some s' ->
  aborted s' = true
  /\ part_uploads s' = part_uploads s
  /\ uploadedParts s' = uploadedParts s
  /\ main s' = main s
  /\ (done_result s = None ->
      done_result s' = if onabort s then Some (Throw AbortError_) else None).
Proof.
  intros Hexec. exec_cases s; done.
Qed.

Lemma sum_list_insert (f : Uploader -> nat) (us : list Uploader) (i : nat)
    (u0 u : Uploader) :
  us !! i = Some u0 ->
  (sum_list (f <$> <[i:=u]> us) + f u0 = sum_list (f <$> us) + f u)%nat.
Proof.
  revert i. induction us as [| v us IH]; intros [| i] Hi; cbn in Hi; simplify_eq.
  - cbn. lia.
  - specialize (IH _ Hi).
    change (<[S i:=u]> (v :: us)) with (v :: <[i:=u]> us).
    rewrite !fmap_cons. cbn [sum_list_with id]. lia.
Qed.

Lemma sum_list_replicate_AtNext (f : Uploader -> nat) (n : nat) :
  sum_list (f <$> replicate n AtNext) = (n * f AtNext)%nat.
Proof. induction n as [| n IH]; cbn; [done | cbn in IH; lia]. Qed.

(** Every step of a cancelled upload, other than the caller calling abort()
    or on() again, uses up some of the work that is left. *)
Lemma exec_aborted_work (l : Label) (s s' : Upload) :
  aborted s = true ->
  exec l s = Some s' ->
  l <> LAbort -> l <> LOn ->
  (work s' < work s)%nat.
Proof.
  intros Ha Hexec Hl1 Hl2. unfold work, main_work.
  destruct l; try done; exec_cases s;
    rewrite ?sum_list_replicate_AtNext;
    repeat match goal with
      | H : ?us !! ?i = Some ?u0 |- context [<[?i:=?u]> ?us] =>
          pose proof (sum_list_insert uploader_work us i u0 u H);
          generalize dependent (<[i:=u]> us); intros
      end;
    cbn in *; try lia.
Qed.


(** *** What every reachable state satisfies *)

Lemma consistent_new (options : Options) (s : Upload) :
  new_Upload options = Ok s -> consistent s.
Proof.
  unfold new_Upload. intros Hnew.
  repeat (case_match; simplify_eq); simplify_eq.
  all: unfold consistent; cbn; naive_solver.
Qed.

Ltac not_idle :=
  match goal with
  | Hall : Forall idle ?us, Hi : ?us !! ?i = Some ?u |- _ =>
      let Hx := fresh in
      pose proof (Forall_lookup_1 _ _ _ _ Hall Hi) as Hx;
      destruct Hx; discriminate
  end.

Lemma consistent_exec (l : Label) (s s' : Upload) :
  consistent s -> exec l s = Some s' -> consistent s'.
Proof.
  intros (Hc1 & Hc2 & Hc3) Hexec. unfold consistent.
  destruct l; exec_cases s.
  all: split;
    [ intros Hm; try done; destruct (Hc1 Hm) as (? & ? & ? & ?);
      by simplify_eq/= |].
  all: split; [ intros Hm; try done; apply Hc2; done |].
  all: intros Ha Hd Hm; try done.
  all: try (destruct Hc3 as (? & ? & Hall); [done .. |]; simplify_eq/=).
  all: try not_idle.
  all: try done.
  all: try (split; [done |]; split; [done |]; apply Forall_insert; [done |];
            by (left + right)).
  - by specialize (Hc2 Hm).
  - destruct (Hc1 eq_refl) as (? & ? & ? & ?); simplify_eq/=.
    split_and!; [done .. |]. apply Forall_replicate. by left.
Qed.

Lemma consistent_run (ls : list Label) (s s' : Upload) :
  consistent s -> run ls s = Some s' -> consistent s'.
Proof.
  revert s. induction ls as [| l ls IH]; intros s Hs Hrun; cbn in Hrun.
  - by simplify_eq.
  - destruct (exec l s) as [s1 |] eqn:Hexec; [| done].
    eauto using consistent_exec.
Qed.

(** A cancelled upload stays cancelled: done() settles with the cancellation
    error or not at all. *)
Lemma cancelled_exec (l : Label) (s s' : Upload) :
  consistent s -> cancelled s -> exec l s = Some s' -> cancelled s'.
Proof.
  intros (Hc1 & Hc2 & Hc3) [Ha Hd] Hexec. unfold cancelled.
  destruct l; exec_cases s.
  all: try (split; [done |]; by (left + right)).
  all: try (destruct Hd as [Hd | Hd]; simplify_eq/=).
  all: try (split; [done |]; by (left + right)).
  all: try (destruct Hc3 as (? & ? & Hall); [done .. |]; simplify_eq/=).
  all: try not_idle.
Qed.

Lemma cancelled_run (ls : list Label) (s s' : Upload) :
  consistent s -> cancelled s -> run ls s = Some s' -> cancelled s'.
Proof.
  revert s. induction ls as [| l ls IH]; intros s Hs Hc Hrun; cbn in Hrun.
  - by simplify_eq.
  - destruct (exec l s) as [s1 |] eqn:Hexec; [| done].
    eauto using consistent_exec, cancelled_exec.
Qed.

Lemma idle_uploaders (us : list Uploader) :
  Forall idle us ->
  (exists i, us !! i = Some AtNext)
  \/ forallb (fun u => match u with Returned => true | _ => false end) us = true.
Proof.
  induction 1 as [| u us [-> | ->] _ IH].
  - by right.
  - left. by exists 0%nat.
  - destruct IH as [[i Hi] | Hall]; [left; by exists (S i) | by right].
Qed.

(** An upload that was cancelled before done() was called, and has not
    settled yet, can take a step of its own. *)
Lemma cancelled_progress (s : Upload) :
  consistent s -> aborted s = true -> done_result s = None ->
  main s <> NotStarted ->
  exists l s', exec l s = Some s' /\ l <> LAbort /\ l <> LOn.
Proof.
  intros (_ & _ & Hc3) Ha Hd Hm.
  destruct (Hc3 Ha Hd Hm) as (Hmain & _ & Hall).
  destruct (idle_uploaders _ Hall) as [[i Hi] | Hret].
  - exists (LNext i). unfold exec, uploader_at. rewrite Hi.
    destruct (dataFeeder s); eauto.
  - exists LAllResolved. unfold exec. rewrite Hmain, Hret. eauto.
Qed.

(** C8.  Take any history of an upload up to a call of abort() that finds
    done() not yet settled, and any continuation.  From the abort on, no part
    upload (UploadPart or single PutObject) is started and no part is
    committed, although answers to uploads in flight may still arrive.  If
    done() had been called before the abort, the abort settles it at once
    with the error named AbortError.  In every later state in which done()
    has been called, done() has settled with that error, or it has not
    settled and the upload can still take a step of its own; and every such
    step uses up work, so done() settles with the cancellation error after a
    bounded number of steps. *)
Theorem abort_stops_part_uploads_and_rejects_done
    (options : Options) (s0 sa sb sc : Upload) (pre post : list Label) :
  new_Upload options = Ok s0 ->
  run pre s0 = Some sa ->
  done_result sa = None ->
  exec LAbort sa = Some sb ->
  run post sb = Some sc ->
  aborted sc = true
  /\ part_uploads sc = part_uploads sa
  /\ uploadedParts sc = uploadedParts sa
  /\ (main sa <> NotStarted -> done_result sb = Some (Throw AbortError_))
  /\ (main sc <> NotStarted ->
      done_result sc = Some (Throw AbortError_)
      \/ (done_result sc = None
          /\ exists l sd, exec l sc = Some sd /\ l <> LAbort /\ l <> LOn))
  /\ (forall l sd,
        exec l sc = Some sd -> l <> LAbort -> l <> LOn ->
        (work sd < work sc)%nat).
Proof.
  intros Hnew Hpre Hpending Habort Hpost.
  assert (consistent sa) as Hsa
    by eauto using consistent_new, consistent_run.
  assert (consistent sb) as Hsb by eauto using consistent_exec.
  assert (consistent sc) as Hsc by eauto using consistent_run.
  destruct (exec_abort _ _ Habort) as (Hab & Hpb & Hub & Hmb & Hdb).
  specialize (Hdb Hpending).
  destruct (run_aborted _ _ _ Hab Hpost) as (Hac & Hpc & Huc).
  assert (cancelled sb) as Hcb.
  { split; [done |]. rewrite Hdb. destruct (onabort sa); auto. }
  destruct (cancelled_run _ _ _ Hsb Hcb Hpost) as [_ Hdc].
  split_and!.
  - done.
  - congruence.
  - congruence.
  - intros Hm. destruct Hsa as (_ & Hon & _). by rewrite Hdb, (Hon Hm).
  - intros Hm. destruct Hdc as [Hdc | Hdc]; [right | by left].
    split; [done |]. by apply cancelled_progress.
  - intros l sd Hexec Hl1 Hl2. by eapply exec_aborted_work.
Qed.


Lemma abort_stops_part_uploads_and_rejects_done_witness :
  exists s0 sa sb sc : Upload,
    new_Upload cancel_options = Ok s0
    /\ run before_cancel s0 = Some sa
    /\ done_result sa = None
    /\ exec LAbort sa = Some sb
    /\ run after_cancel sb = Some sc
    /\ (aborted sc = true
        /\ part_uploads sc = part_uploads sa
        /\ uploadedParts sc = uploadedParts sa
        /\ (main sa <> NotStarted -> done_result sb = Some (Throw AbortError_))
        /\ (main sc <> NotStarted ->
            done_result sc = Some (Throw AbortError_)
            \/ (done_result sc = None
                /\ exists l sd, exec l sc = Some sd /\ l <> LAbort /\ l <> LOn))
        /\ (forall l sd,
              exec l sc = Some sd -> l <> LAbort -> l <> LOn ->
              (work sd < work sc)%nat)).
Proof.
  eexists _, _, _, _.
  split; [vm_compute; reflexivity |].
  split; [vm_compute; reflexivity |].
  split; [vm_compute; reflexivity |].
  split; [vm_compute; reflexivity |].
  split; [vm_compute; reflexivity |].
  eapply (abort_stops_part_uploads_and_rejects_done cancel_options
            _ _ _ _ before_cancel after_cancel);
    vm_compute; reflexivity.
Defined.


(** *** The limit on the number of parts *)

(** An uploader that is not pending leaves room among the pending ones. *)
Lemma pending_room (us : list Uploader) (i : nat) (u0 : Uploader) :
  us !! i = Some u0 ->
  (sum_list (pending <$> us) + 1 <= length us + pending u0)%nat.
Proof.
  revert i. induction us as [| v us IH]; intros [| i] Hi; cbn in Hi; simplify_eq.
  - rewrite fmap_cons. cbn [sum_list_with id length].
    assert (sum_list (pending <$> us) <= length us)%nat; [| lia].
    clear. induction us as [| w us IH]; [done |].
    rewrite fmap_cons. cbn [sum_list_with id length]. destruct w; cbn; lia.
  - specialize (IH _ Hi). rewrite fmap_cons. cbn [sum_list_with id length].
    destruct v; cbn; lia.
Qed.

Lemma length_sort_parts (l : list CompletedPart) :
  length (sort_parts l) = length l.
Proof. unfold sort_parts. apply Permutation_length, merge_sort_Permutation. Qed.

Lemma within_limit_new (options : Options) (s : Upload) :
  new_Upload options = Ok s -> within_limit s.
Proof.
  unfold new_Upload. intros Hnew.
  repeat (case_match; simplify_eq); simplify_eq.
  all: unfold within_limit, MAX_PARTS; cbn; lia.
Qed.

Lemma within_limit_exec (l : Label) (s s' : Upload) :
  consistent s -> within_limit s -> exec l s = Some s' -> within_limit s'.
Proof.
  intros (Hc1 & _ & _) (Hq & Hus & Hlim) Hexec. unfold within_limit.
  destruct l; exec_cases s.
  all: rewrite ?length_insert, ?length_replicate, ?length_app, ?length_sort_parts,
         ?sum_list_replicate_AtNext.
  all: cbn [length pending] in *.
  all: repeat match goal with
         | H : ?us !! ?i = Some ?u0 |- context [<[?i:=?u]> ?us] =>
             pose proof (sum_list_insert pending us i u0 u H);
             pose proof (pending_room us i u0 H);
             generalize dependent (<[i:=u]> us); intros
         end.
  all: cbn [pending] in *.
  all: try (split; [done |]; split; [done |]; lia).
Qed.

Lemma exec_queueSize (l : Label) (s s' : Upload) :
  exec l s = Some s' -> queueSize s' = queueSize s.
Proof. intros Hexec. destruct l; exec_cases s; done. Qed.

(** The bound that does hold: at every point of an upload the number of
    committed parts is at most MAX_PARTS + queueSize. *)
Lemma committed_parts_bound (options : Options) (s0 s : Upload) (ls : list Label) :
  new_Upload options = Ok s0 ->
  run ls s0 = Some s ->
  Z.of_nat (length (uploadedParts s)) <= MAX_PARTS + queueSize s0.
Proof.
  intros Hnew Hrun.
  assert (consistent s0 /\ within_limit s0) as Hs0
    by eauto using consistent_new, within_limit_new.
  assert (within_limit s /\ queueSize s = queueSize s0) as [(Hq & Hus & Hlim) Hsame].
  { clear Hnew. revert s0 Hs0 Hrun.
    induction ls as [| l ls IH]; intros s0 [Hc Hw] Hrun; cbn in Hrun.
    - by simplify_eq.
    - destruct (exec l s0) as [s1 |] eqn:Hexec; [| done].
      destruct (IH s1) as [? ?]; [| done |].
      + eauto using consistent_exec, within_limit_exec.
      + split; [done |]. by rewrite <- (exec_queueSize _ _ _ Hexec). }
  lia.
Qed.

(** *** One uploader, every command accepted *)


Lemma parts_from_length (k : Z) (n : nat) : length (parts_from k n) = n.
Proof. revert k. induction n as [| n IH]; intros k; cbn; [done | by rewrite IH]. Qed.

Lemma parts_from_multipart (k : Z) (n : nat) :
  2 <= k -> Forall multipart (parts_from k n).
Proof.
  revert k. induction n as [| n IH]; intros k Hk; cbn [parts_from]; constructor.
  - split; [| done]. cbn. by assert ((k =? 1) = false) as -> by lia.
  - apply IH. lia.
Qed.

(** One turn of the loop: the uploader takes a part, sends it, and commits it
    when S3 answers. *)
Lemma steady_step (s : Upload) (id : string) (p : RawDataPart)
    (rest : list RawDataPart) :
  concurrentUploaders s = [AtNext] ->
  uploadId s = Some id -> id <> "" ->
  aborted s = false ->
  dataFeeder s = p :: rest ->
  multipart p ->
  Z.of_nat (length (uploadedParts s)) <= MAX_PARTS ->
  exists s1 s2,
    exec (LNext 0) s = Some s1
    /\ exec (LPartSent 0 (Ok part_ok)) s1 = Some s2
    /\ uploadedParts s2 = uploadedParts s ++ [completed_part p part_ok]
    /\ concurrentUploaders s2 = [AtNext]
    /\ uploadId s2 = Some id
    /\ aborted s2 = false
    /\ dataFeeder s2 = rest
    /\ main s2 = main s
    /\ isMultiPart s2 = isMultiPart s
    /\ done_result s2 = done_result s
    /\ tags s2 = tags s.
Proof.
  intros Hus Hid Hne Ha Hfeed [Hmulti Hlen] Hmax.
  destruct s; cbn in *; subst.
  unfold exec, loop_body, send_part, set_uploader, send, uploader_at,
    __notifyProgress.
  unfold_setters. cbn.
  assert ((MAX_PARTS <? Z.of_nat (length uploadedParts0)) = false) as -> by lia.
  rewrite Hmulti.
  assert ((id =? "")%string = false) as -> by by apply String.eqb_neq.
  eexists _, _. split; [reflexivity |].
  cbn. rewrite Hlen.
  split; [reflexivity |].
  by destruct uploadEvent0.
Qed.


(** The loop commits every part the feeder still holds, as long as the
    check at the top of the loop lets each of them through. *)
Lemma steady_run (feeder : list RawDataPart) (s : Upload) (id : string) :
  concurrentUploaders s = [AtNext] ->
  uploadId s = Some id -> id <> "" ->
  aborted s = false ->
  dataFeeder s = feeder ->
  Forall multipart feeder ->
  Z.of_nat (length (uploadedParts s)) + Z.of_nat (length feeder) <= MAX_PARTS + 1 ->
  exists s',
    run (steady_schedule (length feeder)) s = Some s'
    /\ uploadedParts s'
       = uploadedParts s ++ ((fun p => completed_part p part_ok) <$> feeder)
    /\ concurrentUploaders s' = [AtNext]
    /\ uploadId s' = Some id
    /\ aborted s' = false
    /\ dataFeeder s' = []
    /\ main s' = main s
    /\ isMultiPart s' = isMultiPart s
    /\ done_result s' = done_result s
    /\ tags s' = tags s.
Proof.
  revert s. induction feeder as [| p rest IH];
    intros s Hus Hid Hne Ha Hfeed Hall Hmax.
  - exists s. cbn. rewrite app_nil_r. by split_and!.
  - apply Forall_cons in Hall as [Hp Hrest]. cbn [length] in Hmax.
    destruct (steady_step s id p rest Hus Hid Hne Ha Hfeed Hp)
      as (s1 & s2 & H1 & H2 & Hparts & Hus2 & Hid2 & Ha2 & Hfeed2 & Hm2 & Hmp2
          & Hd2 & Ht2); [lia |].
    destruct (IH s2 Hus2 Hid2 Hne Ha2 Hfeed2 Hrest)
      as (s' & Hrun & Hparts' & ? & ? & ? & ? & ? & ? & ? & ?).
    { rewrite Hparts, length_app. cbn [length]. lia. }
    exists s'. cbn [length steady_schedule run]. rewrite H1, H2.
    split; [done |]. split.
    { rewrite Hparts', Hparts, <- app_assoc. done. }
    split_and!; congruence.
Qed.

Lemma run_app (l1 l2 : list Label) (s : Upload) :
  run (l1 ++ l2) s = run l1 s ≫= run l2.
Proof.
  revert s. induction l1 as [| l l1 IH]; intros s; cbn; [done |].
  destruct (exec l s); [apply IH | done].
Qed.

(** The first part: done() starts the uploader, which takes part 1, creates
    the multipart upload, sends the part and commits it. *)
Lemma sequential_start (n : nat) :
  exists s0 s4,
    new_Upload (sequential_options (S (S n))) = Ok s0
    /\ run [LDone; LNext 0; LCreated 0 (Ok (Some "upload-id"));
            LPartSent 0 (Ok part_ok)] s0 = Some s4
    /\ length (uploadedParts s4) = 1%nat
    /\ concurrentUploaders s4 = [AtNext]
    /\ uploadId s4 = Some "upload-id"
    /\ aborted s4 = false
    /\ dataFeeder s4 = parts_from 2 (S n)
    /\ main s4 = AwaitAll
    /\ isMultiPart s4 = true
    /\ done_result s4 = None
    /\ tags s4 = [].
Proof.
  eexists _, _. split; [vm_compute; reflexivity |].
  split; [vm_compute; reflexivity |]. vm_compute. by split_and!.
Qed.

(** The end: the feeder is exhausted, the uploader returns, the parts are
    sorted and completed, and done() resolves. *)
Lemma sequential_finish (s : Upload) :
  concurrentUploaders s = [AtNext] ->
  aborted s = false ->
  dataFeeder s = [] ->
  main s = AwaitAll ->
  isMultiPart s = true ->
  done_result s = None ->
  tags s = [] ->
  exists s',
    run [LNext 0; LAllResolved; LCompleted (Ok complete_ok)] s = Some s'
    /\ uploadedParts s' = sort_parts (uploadedParts s)
    /\ concurrentUploaders s' = [Returned]
    /\ done_result s' = Some (Ok (Some complete_ok)).
Proof.
  intros. destruct s; cbn in *; subst.
  eexists. split; [vm_compute; reflexivity |]. by split_and!.
Qed.

(** With one uploader and an S3 that accepts every command, an upload of
    [n] parts, for any [n] from 2 up to MAX_PARTS + 1, commits all [n] parts
    and done() resolves. *)
Lemma sequential_upload_commits_every_part (n : nat) :
  (2 <= n)%nat -> Z.of_nat n <= MAX_PARTS + 1 ->
  exists s0 s,
    new_Upload (sequential_options n) = Ok s0
    /\ run (sequential_schedule n) s0 = Some s
    /\ length (uploadedParts s) = n
    /\ concurrentUploaders s = [Returned]
    /\ done_result s = Some (Ok (Some complete_ok)).
Proof.
  intros Hn2 Hmax.
  destruct n as [| [| n]]; [lia | lia |].
  destruct (sequential_start n)
    as (s0 & s4 & Hnew & Hrun4 & Hlen4 & Hus4 & Hid4 & Ha4 & Hfeed4 & Hm4
        & Hmp4 & Hd4 & Ht4).
  destruct (steady_run (parts_from 2 (S n)) s4 "upload-id")
    as (s5 & Hrun5 & Hparts5 & Hus5 & Hid5 & Ha5 & Hfeed5 & Hm5 & Hmp5 & Hd5
        & Ht5); try done.
  { by apply parts_from_multipart. }
  { rewrite Hlen4, parts_from_length. lia. }
  destruct (sequential_finish s5)
    as (s6 & Hrun6 & Hparts6 & Hus6 & Hd6); try congruence.
  exists s0, s6. split; [done |]. split.
  - unfold sequential_schedule. rewrite run_app, Hrun4. cbn [mbind option_bind].
    rewrite run_app.
    replace (S (S n) - 1)%nat with (length (parts_from 2 (S n)))
      by (rewrite parts_from_length; lia).
    rewrite Hrun5. cbn [mbind option_bind]. exact Hrun6.
  - split; [| done].
    rewrite Hparts6. unfold sort_parts.
    rewrite (Permutation_length (merge_sort_Permutation _ _)).
    rewrite Hparts5, length_app, length_fmap, Hlen4, parts_from_length. done.
Qed.


(** C2, at its failing input.  An upload whose feeder yields 10,001 parts,
    run by one uploader against an S3 that accepts every command, commits
    10,001 parts, one more than MAX_PARTS, and done() resolves instead of
    failing: no uploader has thrown. *)
Theorem upload_commits_10001_parts :
  exists s0 s,
    new_Upload (sequential_options (Z.to_nat 10001)) = Ok s0
    /\ run (sequential_schedule (Z.to_nat 10001)) s0 = Some s
    /\ Z.of_nat (length (uploadedParts s)) = 10001
    /\ MAX_PARTS < Z.of_nat (length (uploadedParts s))
    /\ concurrentUploaders s = [Returned]
    /\ done_result s = Some (Ok (Some complete_ok)).
Proof.
  destruct (sequential_upload_commits_every_part (Z.to_nat 10001))
    as (s0 & s & Hnew & Hrun & Hlen & Hus & Hd).
  - lia.
  - unfold MAX_PARTS. lia.
  - exists s0, s. unfold MAX_PARTS.
    split; [exact Hnew |]. split; [exact Hrun |].
    split; [lia |]. split; [lia |]. split; [exact Hus | exact Hd].
Qed.

End UploadProofs.

(** ** Chunk sources, further *)

Module ChunkerCoverage.

Import Chunkers Scenarios RemoteReplies.

(** *** Local files *)

Lemma createReadStream_inside (filePath : string) (S : bytes) (start : Z)
    (end_ : option Z) (w : World) :
  files w !! filePath = Some S ->
  0 <= start ->
  (forall e, end_ = Some e -> start <= e) ->
  createReadStream filePath start end_ w
  = (Ok (take (Z.to_nat (match end_ with
                         | Some e => Z.min (e + 1) (Z.of_nat (length S))
                         | None => Z.of_nat (length S)
                         end - start))
           (drop (Z.to_nat start) S)), w).
Proof.
  intros Hf Hs He. unfold createReadStream.
  assert ((start <? 0) = false) as -> by lia.
  destruct end_ as [e|].
  - specialize (He e eq_refl).
    assert ((e <? 0) = false) as -> by lia.
    assert ((e <? start) = false) as -> by lia.
    cbn [orb]. by rewrite Hf.
  - by rewrite Hf.
Qed.

Ltac split_ltb :=
  repeat match goal with
         | |- context [ ?a <? ?b ] => destruct (Z.ltb_spec a b)
         | H : context [ ?a <? ?b ] |- _ => destruct (Z.ltb_spec a b)
         end.

Ltac same_range :=
  f_equal; f_equal; f_equal; [lia | f_equal; lia].

(** X1.  On every pair of bounds that are safe integers and select at
    least one byte (either bound may be absent, negative or beyond the end),
    the local-file chunker made for a file that holds S, of a size that is
    a safe integer too, returns exactly what the in-memory chunker over S
    returns. *)
Theorem fromNodeFile_agrees_with_fromBuffer
    (filePath : string) (S : bytes) (byteStart byteEnd : option Z) (w : World) :
  files w !! filePath = Some S ->
  Z.of_nat (length S) <= MAX_SAFE_INTEGER ->
  isSafeInteger (default 0 byteStart) = true ->
  isSafeInteger (default 0 byteEnd) = true ->
  rel_index (Z.of_nat (length S)) (default 0 byteStart)
  < rel_index (Z.of_nat (length S)) (default (Z.of_nat (length S)) byteEnd) ->
  (chunker ← fromNodeFile filePath; chunker byteStart byteEnd) w
  = fromBuffer S byteStart byteEnd w.
Proof.
  intros Hf _ _ _ Hne.
  unfold mbind, Eff_bind. rewrite (ChunkerProofs.fromNodeFile_run _ _ _ Hf).
  unfold fromBuffer, mret, Eff_ret, slice.
  unfold fromNodeFile_chunker, or0, truthy, rel_index in *.
  set (n := Z.of_nat (length S)) in *.
  assert (0 <= n) as Hn by lia.
  destruct byteStart as [s|], byteEnd as [e|]; cbn [from_option id] in *;
    try destruct (Z.eqb_spec s 0) as [->|Hs];
    try destruct (Z.eqb_spec e 0) as [->|He];
    cbn [negb andb orb Z.eqb Z.ltb Z.compare] in *;
    split_ltb; try lia;
    first
      [ rewrite (createReadStream_inside _ S)
          by (try done; try lia; intros ? [= <-]; lia);
        fold n; same_range
      | unfold readFile; rewrite Hf; f_equal; f_equal; symmetry;
        replace (Z.to_nat (0 `min` n)) with 0%nat by lia;
        cbn [drop]; apply take_ge; lia ].
Qed.

Lemma fromNodeFile_agrees_with_fromBuffer_witness :
  (chunker ← fromNodeFile "/data/sample.bin"; chunker (Some (- 2)) (Some (- 1)))
    sample_world
  = fromBuffer sample (Some (- 2)) (Some (- 1)) sample_world.
Proof.
  apply (fromNodeFile_agrees_with_fromBuffer "/data/sample.bin" sample
           (Some (- 2)) (Some (- 1)) sample_world).
  - vm_compute; reflexivity.
  - vm_compute; discriminate.
  - reflexivity.
  - reflexivity.
  - vm_compute; reflexivity.
Defined.

(** X2.  The local-file chunker keeps the size the file had when the chunker
    was made: after the file's content has changed, a read of the last k
    bytes starts at the old size minus k, counted in the new content. *)
Theorem fromNodeFile_keeps_first_size
    (filePath : string) (S S' : bytes) (k : Z) (w w1 w' : World)
    (chunker : Chunker) :
  0 < k ->
  files w !! filePath = Some S ->
  fromNodeFile filePath w = (Ok chunker, w1) ->
  files w' !! filePath = Some S' ->
  chunker (Some (- k)) None w'
  = (Ok (suffix_from S' (Z.max 0 (Z.of_nat (length S) - k))), w').
Proof.
  intros Hk Hf Hmake Hf'.
  rewrite (ChunkerProofs.fromNodeFile_run _ _ _ Hf) in Hmake.
  injection Hmake as <- <-.
  unfold fromNodeFile_chunker, or0, truthy. cbn [from_option id].
  assert ((- k =? 0) = false) as -> by lia.
  assert ((- k <? 0) = true) as -> by lia.
  cbn [negb andb].
  rewrite (createReadStream_inside _ S') by (try done; try lia; intros ? [=]).
  unfold suffix_from.
  rewrite Z.abs_opp, (Z.abs_eq k) by lia.
  do 2 f_equal. apply take_ge. rewrite length_drop. lia.
Qed.

Lemma fromNodeFile_keeps_first_size_witness :
  fromNodeFile_chunker "/data/sample.bin" 3 (Some (- 2)) None grown_world
  = (Ok [Byte.x02; Byte.x03; Byte.x04; Byte.x05; Byte.x06], grown_world).
Proof.
  apply (fromNodeFile_keeps_first_size "/data/sample.bin" sample
           (sample ++ [Byte.x04; Byte.x05; Byte.x06]) 2
           sample_world sample_world grown_world).
  - lia.
  - vm_compute; reflexivity.
  - vm_compute; reflexivity.
  - vm_compute; reflexivity.
Defined.

(** *** Remote chunks *)

Lemma axiosRemoteChunk_get_answer (j retries : nat) (req : Request) (w : World)
    (status : Z) (data : option bytes) :
  (j <= retries)%nat ->
  (forall i, (i < j)%nat ->
     rejected (http w (length (requests w) + i)%nat req) = true) ->
  http w (length (requests w) + j)%nat req = HttpResponse status data ->
  200 <= status < 300 ->
  axiosRemoteChunk_get retries req w
  = (Ok data,
     mkWorld (files w) (http w) (requests w ++ replicate (S j) req)
       (console w) (disturbed w)).
Proof.
  revert retries w. induction j as [|j IH]; intros retries w Hj Hrej Hans Hst.
  - rewrite Nat.add_0_r in Hans.
    destruct retries; cbn [axiosRemoteChunk_get];
      unfold try_catch, axios_get_once; rewrite Hans;
      assert ((200 <=? status) && (status <? 300) = true) as -> by lia;
      reflexivity.
  - destruct retries as [|retries]; [lia|].
    cbn [axiosRemoteChunk_get]. unfold try_catch at 1.
    pose proof (Hrej 0%nat ltac:(lia)) as H0. rewrite Nat.add_0_r in H0.
    assert (exists e, axios_get_once req w = (Throw e, log_request req w))
      as [e ->].
    { unfold axios_get_once. destruct (http w (length (requests w)) req);
        cbn [rejected] in H0; [by eexists|].
      apply negb_true_iff in H0. rewrite H0. by eexists. }
    rewrite (IH retries (log_request req w) ltac:(lia)); cbn [log_request requests http files console disturbed].
    + rewrite <- app_assoc. reflexivity.
    + intros i Hi. rewrite length_app. cbn [length].
      replace (length (requests w) + 1 + i)%nat
        with (length (requests w) + S i)%nat by lia.
      apply Hrej. lia.
    + rewrite length_app. cbn [length].
      replace (length (requests w) + 1 + j)%nat
        with (length (requests w) + S j)%nat by lia.
      exact Hans.
    + exact Hst.
Qed.

Lemma axiosRemoteChunk_get_rejected (retries : nat) (req : Request) (w : World) :
  (forall i, (i <= retries)%nat ->
     rejected (http w (length (requests w) + i)%nat req) = true) ->
  axiosRemoteChunk_get retries req w
  = (Throw (rejection (http w (length (requests w) + retries)%nat req)),
     mkWorld (files w) (http w) (requests w ++ replicate (S retries) req)
       (console w) (disturbed w)).
Proof.
  revert w. induction retries as [|retries IH]; intros w Hrej.
  - pose proof (Hrej 0%nat ltac:(lia)) as H0. rewrite Nat.add_0_r in *.
    cbn [axiosRemoteChunk_get]. unfold try_catch, axios_get_once, throw.
    destruct (http w (length (requests w)) req); cbn [rejected rejection] in *;
      [done|].
    apply negb_true_iff in H0. by rewrite H0.
  - cbn [axiosRemoteChunk_get]. unfold try_catch at 1.
    pose proof (Hrej 0%nat ltac:(lia)) as H0. rewrite Nat.add_0_r in H0.
    assert (exists e, axios_get_once req w = (Throw e, log_request req w))
      as [e ->].
    { unfold axios_get_once. destruct (http w (length (requests w)) req);
        cbn [rejected] in H0; [by eexists|].
      apply negb_true_iff in H0. rewrite H0. by eexists. }
    rewrite (IH (log_request req w)); cbn [log_request requests http files console disturbed].
    + rewrite <- app_assoc, length_app. cbn [length].
      replace (length (requests w) + 1 + retries)%nat
        with (length (requests w) + S retries)%nat by lia.
      reflexivity.
    + intros i Hi. rewrite length_app. cbn [length].
      replace (length (requests w) + 1 + i)%nat
        with (length (requests w) + S i)%nat by lia.
      apply Hrej. lia.
Qed.

Lemma axiosRemoteChunk_get_sends (retries : nat) (req : Request) (w : World) :
  exists k : nat,
    (1 <= k <= S retries)%nat
    /\ snd (axiosRemoteChunk_get retries req w)
       = mkWorld (files w) (http w) (requests w ++ replicate k req)
           (console w) (disturbed w).
Proof.
  revert w. induction retries as [|retries IH]; intros w.
  - exists 1%nat. split; [lia|].
    cbn [axiosRemoteChunk_get]. unfold try_catch, axios_get_once, throw.
    destruct (http w (length (requests w)) req); [done|].
    by destruct ((200 <=? status) && (status <? 300)).
  - cbn [axiosRemoteChunk_get]. unfold try_catch at 1.
    destruct (axios_get_once req w) as [[a|e] w1] eqn:Hget.
    + exists 1%nat. split; [lia|].
      unfold axios_get_once in Hget.
      destruct (http w (length (requests w)) req); [done|].
      destruct ((200 <=? status) && (status <? 300)); by simplify_eq.
    + assert (w1 = log_request req w) as ->.
      { unfold axios_get_once in Hget.
        destruct (http w (length (requests w)) req); [by simplify_eq|].
        destruct ((200 <=? status) && (status <? 300)); by simplify_eq. }
      destruct (IH (log_request req w)) as (k & Hk & ->).
      exists (S k). split; [lia|].
      cbn [log_request requests http files console disturbed].
      by rewrite <- app_assoc.
Qed.

(** The catch block of getRemoteChunk rethrows what it caught and can only
    add a line to the console. *)
Lemma getRemoteChunk_catch (A : Type) (e : JsError) (w : World) :
  let handler : M A :=
    match e with
    | AxiosError (Some 416) => console_log "Warning: Range not satisfiable"
    | _ => mret tt
    end;; throw e in
  (handler w).1 = Throw e
  /\ files (handler w).2 = files w
  /\ requests (handler w).2 = requests w
  /\ disturbed (handler w).2 = disturbed w.
Proof.
  unfold mbind, Eff_bind, console_log, mret, Eff_ret, throw.
  repeat case_match; simplify_eq; done.
Qed.

Lemma getRemoteChunk_requests
    (url : string) (range : option string) (w : World) :
  exists k : nat,
    (1 <= k <= 4)%nat
    /\ requests (snd (getRemoteChunk url range w))
       = requests w ++ replicate k (mkRequest url (range_header range))
    /\ files (snd (getRemoteChunk url range w)) = files w
    /\ disturbed (snd (getRemoteChunk url range w)) = disturbed w.
Proof.
  destruct (axiosRemoteChunk_get_sends 3 (mkRequest url (range_header range)) w)
    as (k & Hk & Hw).
  exists k. split; [done|].
  unfold getRemoteChunk, try_catch, mbind, Eff_bind.
  fold (range_header range).
  destruct (axiosRemoteChunk_get 3 (mkRequest url (range_header range)) w)
    as [[data|e] w1]; cbn [snd] in Hw; subst w1.
  - destruct data; unfold mret, Eff_ret, throw, console_log; cbn; done.
  - destruct (getRemoteChunk_catch bytes e
                (mkWorld (files w) (http w)
                   (requests w ++ replicate k (mkRequest url (range_header range)))
                   (console w) (disturbed w)))
      as (_ & Hfiles & Hreq & Hdist).
    cbn zeta in Hfiles, Hreq, Hdist.
    unfold mbind, Eff_bind in Hfiles, Hreq, Hdist.
    rewrite Hfiles, Hreq, Hdist. done.
Qed.

(** X3.  One call of getRemoteChunk sends the same GET between one and four
    times (the request and up to three retries) and touches nothing else:
    the files and the consumed streams are as before. *)
Theorem getRemoteChunk_sends_at_most_four
    (url : string) (range : option string) (w : World) :
  exists k : nat,
    (1 <= k <= 4)%nat
    /\ requests (snd (getRemoteChunk url range w))
       = requests w ++ replicate k (mkRequest url (range_header range))
    /\ files (snd (getRemoteChunk url range w)) = files w
    /\ disturbed (snd (getRemoteChunk url range w)) = disturbed w.
Proof. apply getRemoteChunk_requests. Qed.

(** X4.  When the server rejects the request and all three retries,
    getRemoteChunk throws what the last attempt was rejected with, after
    exactly four requests; the warning is logged exactly when that last
    status is 416. *)
Theorem getRemoteChunk_gives_up
    (url : string) (range : option string) (w : World) :
  (forall i, (i < 4)%nat ->
     rejected (http w (length (requests w) + i)%nat
                 (mkRequest url (range_header range))) = true) ->
  exists w' : World,
    getRemoteChunk url range w
    = (Throw (rejection (http w (length (requests w) + 3)%nat
                           (mkRequest url (range_header range)))), w')
    /\ requests w' = requests w ++ replicate 4 (mkRequest url (range_header range))
    /\ console w'
       = console w
         ++ match http w (length (requests w) + 3)%nat
                    (mkRequest url (range_header range)) with
            | HttpResponse 416 _ => ["Warning: Range not satisfiable"]
            | _ => []
            end.
Proof.
  intros Hrej.
  unfold getRemoteChunk, try_catch, mbind, Eff_bind.
  fold (range_header range).
  rewrite axiosRemoteChunk_get_rejected by (intros; apply Hrej; lia).
  destruct (http w (length (requests w) + 3)%nat (mkRequest url (range_header range)))
    as [|st d]; cbn [rejection].
  - eexists. split; [reflexivity|]. cbn. by rewrite app_nil_r.
  - destruct (decide (st = 416)) as [->|Hst].
    + eexists. split; [reflexivity|]. by cbn.
    + eexists. split.
      * unfold console_log, mret, Eff_ret, throw.
        repeat case_match; simplify_eq; reflexivity.
      * repeat case_match; simplify_eq; cbn; by rewrite ?app_nil_r.
Qed.

Lemma getRemoteChunk_gives_up_witness :
  exists w' : World,
    getRemoteChunk "https://host/file" (Some "0-9") unavailable_world
    = (Throw (AxiosError (Some 503)), w')
    /\ requests w'
       = replicate 4 (mkRequest "https://host/file" (Some "bytes=0-9"))
    /\ console w' = [].
Proof.
  apply (getRemoteChunk_gives_up "https://host/file" (Some "0-9") unavailable_world).
  intros i _. reflexivity.
Defined.

(** X5.  When the server rejects the first j attempts (j at most three) and
    then answers with a 2xx status and a body, getRemoteChunk returns that
    body after exactly j + 1 requests and logs nothing. *)
Theorem getRemoteChunk_retries_until_answer
    (url : string) (range : option string) (w : World) (j : nat)
    (status : Z) (d : bytes) :
  (j <= 3)%nat ->
  (forall i, (i < j)%nat ->
     rejected (http w (length (requests w) + i)%nat
                 (mkRequest url (range_header range))) = true) ->
  http w (length (requests w) + j)%nat (mkRequest url (range_header range))
  = HttpResponse status (Some d) ->
  200 <= status < 300 ->
  exists w' : World,
    getRemoteChunk url range w = (Ok d, w')
    /\ requests w'
       = requests w ++ replicate (S j) (mkRequest url (range_header range))
    /\ console w' = console w.
Proof.
  intros Hj Hrej Hans Hst.
  unfold getRemoteChunk, try_catch, mbind, Eff_bind.
  fold (range_header range).
  rewrite (axiosRemoteChunk_get_answer j 3 _ _ status (Some d)) by done.
  by eexists.
Qed.

Lemma getRemoteChunk_retries_until_answer_witness :
  exists w' : World,
    getRemoteChunk "https://host/file" None flaky_world = (Ok sample, w')
    /\ requests w' = replicate 3 (mkRequest "https://host/file" None)
    /\ console w' = [].
Proof.
  apply (getRemoteChunk_retries_until_answer "https://host/file" None
           flaky_world 2 200 sample).
  - lia.
  - intros i Hi. cbn. destruct i as [|[|i]]; [reflexivity|reflexivity|lia].
  - reflexivity.
  - lia.
Defined.

Lemma pretty_N_go_nonempty (x : N) (s : string) :
  s <> "" -> pretty_N_go x s <> "".
Proof.
  revert s. induction (N.lt_wf_0 x) as [x _ IH]; intros s Hs.
  assert (x = 0 \/ 0 < x)%N as [->|Hx] by lia.
  - by rewrite pretty_N_go_0.
  - rewrite pretty_N_go_step by done. apply IH; [|done].
    apply N.div_lt; lia.
Qed.

Lemma pretty_Z_nonempty (x : Z) : pretty x <> "".
Proof.
  destruct x as [|p|p]; unfold pretty, pretty_Z; [done| |done].
  unfold pretty, pretty_positive, pretty, pretty_N.
  destruct (decide (N.pos p = 0%N)); [done|].
  rewrite pretty_N_go_step by lia.
  by apply pretty_N_go_nonempty.
Qed.

Lemma truthy_str_nonempty (s : string) :
  s <> "" -> truthy_str (Some s) = true.
Proof. intros Hs. by destruct s. Qed.

Lemma truthy_str_app (s t : string) :
  s <> "" -> truthy_str (Some (s +:+ t)) = true.
Proof.
  intros Hs. destruct s; [done|]. reflexivity.
Qed.

(** X6.  A ranged read of a remote chunker turns its exclusive end into the
    inclusive one of HTTP: for offsets that are safe integers, read(a, b)
    with b > 0 asks for Range bytes=a-(b-1), and read(a) without an end asks
    for bytes=a; every request the read sends carries that header. *)
Theorem fromUrl_range_header (location : string) (a b : Z) (w : World) :
  isSafeInteger a = true ->
  (0 < b -> isSafeInteger b = true ->
   exists k : nat,
     (1 <= k <= 4)%nat
     /\ requests (snd ((chunker ← fromUrl location; chunker (Some a) (Some b)) w))
        = requests w
          ++ replicate k
               (mkRequest location
                  (Some ("bytes=" +:+ pretty a +:+ "-" +:+ pretty (b - 1)))))
  /\ exists k : nat,
       (1 <= k <= 4)%nat
       /\ requests (snd ((chunker ← fromUrl location; chunker (Some a) None) w))
          = requests w
            ++ replicate k (mkRequest location (Some ("bytes=" +:+ pretty a))).
Proof.
  intros _. split.
  - intros Hb _.
    unfold fromUrl, mbind, Eff_bind, mret, Eff_ret, fromUrl_chunker, truthy, or0.
    cbn [from_option id].
    assert ((b =? 0) = false) as -> by lia.
    assert ((b <? 0) = false) as -> by lia.
    cbn [negb andb].
    destruct (getRemoteChunk_requests location
                (Some (pretty a +:+ "-" +:+ pretty (b - 1))) w)
      as (k & Hk & Hreq & _).
    exists k. split; [done|]. rewrite Hreq.
    unfold range_header.
    by rewrite truthy_str_app by apply pretty_Z_nonempty.
  - unfold fromUrl, mbind, Eff_bind, mret, Eff_ret, fromUrl_chunker, truthy, or0.
    cbn [from_option id andb].
    destruct (getRemoteChunk_requests location (Some (pretty a)) w)
      as (k & Hk & Hreq & _).
    exists k. split; [done|]. rewrite Hreq.
    unfold range_header.
    by rewrite truthy_str_nonempty by apply pretty_Z_nonempty.
Qed.

Lemma fromUrl_range_header_witness :
  exists k : nat,
    (1 <= k <= 4)%nat
    /\ requests (snd ((chunker ← fromUrl "https://host/file";
                       chunker (Some 1) (Some 3)) sample_world))
       = replicate k (mkRequest "https://host/file" (Some "bytes=1-2")).
Proof.
  apply (proj1 (fromUrl_range_header "https://host/file" 1 3 sample_world
                  eq_refl)).
  - lia.
  - reflexivity.
Defined.

(** *** Data sources *)

(** X7.  Unless the source is of type 'stream', fromDataSource contacts no
    server and consumes no stream, whether it returns a chunker or throws:
    it sends no request, logs nothing, marks no stream as read and leaves
    the files as they are.  A remote source is not contacted before the
    chunker's first read. *)
Theorem fromDataSource_sends_and_consumes_nothing (source : DataSource) (w : World) :
  type source <> "stream" ->
  (fromDataSource source w).2 = w.
Proof.
  intros Hstream. unfold fromDataSource.
  destruct (String.eqb_spec (type source) "stream") as [|_]; [done|].
  unfold fromNodeFile, fromUrl, mbind, Eff_bind, statSync_size, mret, Eff_ret, throw.
  repeat case_match; simplify_eq; done.
Qed.

Lemma fromDataSource_sends_and_consumes_nothing_witness :
  (fromDataSource (mkDataSource "remote" (LString "https://host/file"))
     sample_world).2
  = sample_world.
Proof.
  apply (fromDataSource_sends_and_consumes_nothing
           (mkDataSource "remote" (LString "https://host/file")) sample_world).
  discriminate.
Defined.

(** X8.  A buffer, a browser file and a local file that hold the same
    content S are read alike through fromDataSource: for 0 <= a < b <= |S|
    the chunker made for each of them returns S[a:b]. *)
Theorem fromDataSource_reads_range
    (S : bytes) (filePath : string) (a b : Z) (w : World) (source : DataSource) :
  files w !! filePath = Some S ->
  0 <= a < b -> b <= Z.of_nat (length S) ->
  source ∈ [mkDataSource "buffer" (LUint8Array S);
            mkDataSource "file-browser" (LBlob S);
            mkDataSource "file-node" (LString filePath)] ->
  (chunker ← fromDataSource source; chunker (Some a) (Some b)) w
  = (Ok (sub S a b), w).
Proof.
  intros Hf Hab Hb Hsrc.
  apply elem_of_cons in Hsrc as [->|Hsrc];
    [|apply elem_of_cons in Hsrc as [->|Hsrc];
      [|apply list_elem_of_singleton in Hsrc as ->]].
  - unfold fromDataSource, mbind, Eff_bind, mret, Eff_ret.
    cbn [type location String.eqb Ascii.eqb Bool.eqb].
    apply ChunkerProofs.fromBuffer_read_range; lia.
  - unfold fromDataSource, mbind, Eff_bind, mret, Eff_ret.
    cbn [type location String.eqb Ascii.eqb Bool.eqb].
    apply ChunkerProofs.fromBuffer_read_range; lia.
  - unfold fromDataSource, mbind, Eff_bind.
    cbn [type location String.eqb Ascii.eqb Bool.eqb].
    rewrite (ChunkerProofs.fromNodeFile_run _ _ _ Hf).
    by apply ChunkerProofs.fromNodeFile_read_range.
Qed.

Lemma fromDataSource_reads_range_witness :
  (chunker ← fromDataSource (mkDataSource "file-node" (LString "/data/sample.bin"));
   chunker (Some 1) (Some 3)) sample_world
  = (Ok [Byte.x02; Byte.x03], sample_world).
Proof.
  apply (fromDataSource_reads_range sample "/data/sample.bin" 1 3 sample_world
           (mkDataSource "file-node" (LString "/data/sample.bin"))).
  - vm_compute; reflexivity.
  - lia.
  - unfold sample. cbn [length]. lia.
  - set_solver.
Defined.

(** X9.  makeChunkable drains a stream source once: the chunker it returns
    reads all the bytes of the stream, in order, and a second makeChunkable
    on the same stream fails, because the stream was consumed. *)
Theorem makeChunkable_consumes_stream (location : ReadableStream) (w : World) :
  stream_id location ∉ disturbed w ->
  exists (chunker : Chunker) (w' : World),
    Tdf3Client.makeChunkable (Some (Tdf3Client.DecryptStream location)) w
    = (Ok chunker, w')
    /\ chunker None None w' = (Ok (concat (chunks location)), w')
    /\ exists e : JsError,
        Tdf3Client.makeChunkable (Some (Tdf3Client.DecryptStream location)) w'
        = (Throw e, w').
Proof.
  intros Hfresh.
  unfold Tdf3Client.makeChunkable, mbind, Eff_bind, streamToBuffer.
  rewrite (bool_decide_eq_false_2 _ Hfresh).
  eexists _, _. split; [reflexivity|]. split.
  - unfold mret, Eff_ret, fromBuffer, slice, rel_index. cbn [from_option id].
    assert ((0 <? 0) = false) as -> by done.
    set (n := Z.of_nat (length (concat (chunks location)))).
    assert ((n <? 0) = false) as -> by lia.
    replace (Z.to_nat (0 `min` n)) with 0%nat by lia.
    rewrite drop_0, take_ge by (subst n; lia). reflexivity.
  - cbn [disturbed].
    rewrite bool_decide_eq_true_2 by set_solver. by eexists.
Qed.

Lemma makeChunkable_consumes_stream_witness :
  exists (chunker : Chunker) (w' : World),
    Tdf3Client.makeChunkable
      (Some (Tdf3Client.DecryptStream (mkStream 7 [sample; sample]))) sample_world
    = (Ok chunker, w')
    /\ chunker None None w' = (Ok (sample ++ sample), w')
    /\ exists e : JsError,
        Tdf3Client.makeChunkable
          (Some (Tdf3Client.DecryptStream (mkStream 7 [sample; sample]))) w'
        = (Throw e, w').
Proof.
  apply (makeChunkable_consumes_stream (mkStream 7 [sample; sample]) sample_world).
  cbn. set_solver.
Defined.

End ChunkerCoverage.

(** ** The TDF3 client, further *)

Module ClientCoverage.

Import Tdf3Client Scenarios ClientObservations ClientProofs.

Ltac run_new H :=
  unfold Client_new, createSessionKeys, fetchKasPubKey, start, try_catch in H;
  unfold mbind, Eff_bind, mret, Eff_ret, emit, await, throw in H;
  repeat (case_match; simplify_eq).

Ltac bool_facts :=
  repeat match goal with
         | H : negb _ = true |- _ => apply negb_true_iff in H
         | H : negb _ = false |- _ => apply negb_false_iff in H
         end.

(** *** constructor *)

Lemma Client_new_requires
    (env : Env) (config : ClientConfig) (t t' : list Effect) (client : Client) :
  Client_new env config t = (Ok client, t') ->
  (truthy_str (cfg_kasEndpoint config) = true
   \/ truthy_str (cfg_keyRewrapEndpoint config) = true)
  /\ (is_Some (cfg_authProvider config)
      \/ (truthy_str (cfg_clientId config) = true
          /\ truthy_str (cfg_clientSecret config) = false)).
Proof.
  intros Hrun.
  destruct config. run_new Hrun; cbn in *; simplify_eq.
  all: bool_facts.
  all: split; [auto|first [by left|right; auto]].
Qed.

(** X10.  The constructor succeeds exactly when the configuration names a
    KAS (kasEndpoint or keyRewrapEndpoint) and either brings an auth provider
    or has a clientId and no clientSecret.  Nothing else makes it throw: a
    failing key generation or an unreachable KAS is kept in the promises. *)
Theorem Client_new_succeeds_iff
    (env : Env) (config : ClientConfig) (t : list Effect) :
  (exists (client : Client) (t' : list Effect),
      Client_new env config t = (Ok client, t'))
  <-> (truthy_str (cfg_kasEndpoint config) = true
       \/ truthy_str (cfg_keyRewrapEndpoint config) = true)
      /\ (is_Some (cfg_authProvider config)
          \/ (truthy_str (cfg_clientId config) = true
              /\ truthy_str (cfg_clientSecret config) = false)).
Proof.
  destruct (Client_new env config t) as [[client|e] t'] eqn:Hrun.
  - split; [intros _|by eauto]. by eapply Client_new_requires.
  - split; [by intros (? & ? & [=])|]. intros [Hkas Hauth]. exfalso.
    destruct config. run_new Hrun; cbn in *; simplify_eq.
    all: bool_facts.
    all: destruct Hkas as [Hkas|Hkas]; try congruence.
    all: destruct Hauth as [[? [=]]|[Hid Hsecret]]; congruence.
Qed.

(** X11.  A key pair in the configuration is taken as it is: the session
    keys are that pair with no signing keys, even with DPoP enabled, and the
    constructor neither generates a key nor tells the auth provider about the
    public key. *)
Theorem Client_new_keeps_given_keypair
    (env : Env) (config : ClientConfig) (k : PemKeyPair)
    (t t' : list Effect) (client : Client) :
  cfg_keypair config = Some k ->
  Client_new env config t = (Ok client, t') ->
  sessionKeys client = Ok (mkSessionKeys k None)
  /\ generated t' = generated t
  /\ public_key_updates t' = public_key_updates t.
Proof.
  intros Hk Hrun. unfold generated, public_key_updates.
  destruct config. cbn in Hk. subst.
  run_new Hrun; cbn in *; simplify_eq.
  all: rewrite ?omap_app; cbn; rewrite ?app_nil_r; done.
Qed.

Lemma Client_new_keeps_given_keypair_witness :
  exists (client : Client) (t' : list Effect),
    Client_new sample_env keypair_config [] = (Ok client, t')
    /\ sessionKeys client
       = Ok (mkSessionKeys (mkPemKeyPair "MY-PUBLIC" "MY-PRIVATE") None)
    /\ generated t' = generated []
    /\ public_key_updates t' = public_key_updates [].
Proof.
  eexists _, _. split; [vm_compute; reflexivity|].
  eapply (Client_new_keeps_given_keypair sample_env keypair_config
            (mkPemKeyPair "MY-PUBLIC" "MY-PRIVATE") []).
  - reflexivity.
  - vm_compute; reflexivity.
Defined.

Lemma replace_rewrap_suffix_empty (s : string) :
  replace_rewrap_suffix s = "" <-> s = "" \/ s = "/rewrap".
Proof.
  destruct s as [|c s]; [by split; [left|]|].
  cbn [replace_rewrap_suffix].
  destruct (String.eqb_spec (String c s) "/rewrap") as [->|Hne].
  - split; [by right|done].
  - split; [done|]. by intros [|].
Qed.

(** X12.  The kasEndpoint of a constructed client is the empty string in one
    case only: no kasEndpoint was configured and keyRewrapEndpoint is exactly
    '/rewrap'. *)
Theorem Client_new_kasEndpoint_empty_iff
    (env : Env) (config : ClientConfig) (t t' : list Effect) (client : Client) :
  Client_new env config t = (Ok client, t') ->
  kasEndpoint client = ""
  <-> truthy_str (cfg_kasEndpoint config) = false
      /\ cfg_keyRewrapEndpoint config = Some "/rewrap".
Proof.
  intros Hrun.
  assert (truthy_str (cfg_kasEndpoint config) = true
          \/ truthy_str (cfg_keyRewrapEndpoint config) = true) as Hkas.
  { by eapply Client_new_requires. }
  rewrite (Client_new_kasEndpoint _ _ _ _ _ Hrun).
  destruct (cfg_kasEndpoint config) as [[|c k]|] eqn:Hk; cbn.
  - destruct Hkas as [Hx|Hr]; [discriminate Hx|].
    rewrite replace_rewrap_suffix_empty.
    destruct (cfg_keyRewrapEndpoint config) as [r|]; [|done]. cbn in *.
    split; [intros [-> | ->]; done|]. intros [_ [= ->]]. by right.
  - split; [done|]. by intros [[=] _].
  - destruct Hkas as [Hx|Hr]; [discriminate Hx|].
    rewrite replace_rewrap_suffix_empty.
    destruct (cfg_keyRewrapEndpoint config) as [r|]; [|done]. cbn in *.
    split; [intros [-> | ->]; done|]. intros [_ [= ->]]. by right.
Qed.

Lemma Client_new_kasEndpoint_empty_iff_witness :
  exists (client : Client) (t' : list Effect),
    Client_new sample_env bare_rewrap_config [] = (Ok client, t')
    /\ (kasEndpoint client = ""
        <-> truthy_str (cfg_kasEndpoint bare_rewrap_config) = false
            /\ cfg_keyRewrapEndpoint bare_rewrap_config = Some "/rewrap").
Proof.
  eexists _, _. split; [vm_compute; reflexivity|].
  eapply (Client_new_kasEndpoint_empty_iff sample_env bare_rewrap_config []).
  vm_compute; reflexivity.
Defined.

(** *** Keys that arrive later *)

Lemma fetchKasPubKey_outcome (env : Env) (kasEndpoint : string) (t : list Effect) :
  (fetchKasPubKey env kasEndpoint t).1 = (fetchKasPubKey env kasEndpoint []).1.
Proof.
  unfold fetchKasPubKey, try_catch, mbind, Eff_bind, emit, await, throw.
  destruct (String.eqb kasEndpoint ""); [done|].
  by destruct (env_kas_public_key env kasEndpoint).
Qed.

Lemma Client_new_kasPublicKey (env : Env) (config : ClientConfig)
    (t t' : list Effect) (client : Client) :
  Client_new env config t = (Ok client, t') ->
  kasPublicKey client
  = if truthy_str (cfg_kasPublicKey config)
    then Ok (default "" (cfg_kasPublicKey config))
    else (fetchKasPubKey env (kasEndpoint client) []).1.
Proof.
  intros Hrun. unfold Client_new in Hrun.
  apply bind_Ok_inv in Hrun as (k & t1 & _ & Hrun).
  apply bind_Ok_inv in Hrun as (eas & t2 & _ & Hrun).
  apply bind_Ok_inv in Hrun as (ap & t3 & _ & Hrun).
  apply bind_Ok_inv in Hrun as (sk & t4 & _ & Hrun).
  apply bind_Ok_inv in Hrun as (kk & t5 & Hkk & Hrun).
  injection Hrun as <- _. cbn [kasPublicKey kasEndpoint].
  destruct config; cbn in *.
  destruct (truthy_str cfg_kasPublicKey0).
  - by injection Hkk as <- _.
  - unfold start in Hkk. rewrite <- (fetchKasPubKey_outcome env k t4).
    destruct (fetchKasPubKey env k t4). by injection Hkk as <- _.
Qed.

(** X13.  An unreachable KAS does not stop the constructor, but it stops
    every later encrypt: on a client made without a configured KAS public
    key, whose key retrieval failed, encrypt throws, creates no TDF, adds no
    key access and hands nothing to the writer. *)
Theorem encrypt_fails_without_kas_key
    (env env' : Env) (config : ClientConfig) (t t' : list Effect)
    (client : Client) (e : JsError) (params : EncryptParams) (t1 : list Effect) :
  Client_new env config t = (Ok client, t') ->
  truthy_str (cfg_kasPublicKey config) = false ->
  env_kas_public_key env (kasEndpoint client) = Throw e ->
  exists (e' : JsError) (t1' : list Effect),
    encrypt env' client params t1 = (Throw e', t1')
    /\ tdfs_created t1' = tdfs_created t1
    /\ key_access_added t1' = key_access_added t1
    /\ byte_limits_handed t1' = byte_limits_handed t1.
Proof.
  intros Hnew Hconf Hkas.
  assert (exists e0, kasPublicKey client = Throw e0) as [e0 He0].
  { rewrite (Client_new_kasPublicKey _ _ _ _ _ Hnew), Hconf.
    unfold fetchKasPubKey, try_catch, mbind, Eff_bind, emit, await, throw.
    rewrite Hkas. destruct (String.eqb _ _); by eexists. }
  destruct (encrypt env' client params t1) as [r t1'] eqn:Hrun.
  unfold tdfs_created, key_access_added, byte_limits_handed.
  run_encrypt Hrun.
  all: try congruence.
  all: eexists _, _; split; [reflexivity|].
  all: rewrite ?omap_app; cbn; rewrite ?app_nil_r; done.
Qed.

Lemma encrypt_fails_without_kas_key_witness :
  exists (client : Client) (t' : list Effect),
    Client_new offline_env sample_config [] = (Ok client, t')
    /\ exists (e' : JsError) (t1' : list Effect),
        encrypt sample_env client (sample_params false 11) [] = (Throw e', t1')
        /\ tdfs_created t1' = tdfs_created []
        /\ key_access_added t1' = key_access_added []
        /\ byte_limits_handed t1' = byte_limits_handed [].
Proof.
  eexists _, _. split; [vm_compute; reflexivity|].
  eapply (encrypt_fails_without_kas_key offline_env sample_env sample_config []).
  - vm_compute; reflexivity.
  - reflexivity.
  - reflexivity.
Defined.

(** *** createSessionKeys *)

(** X14.  When createSessionKeys succeeds, the auth provider has been told
    about a public key exactly when a provider was passed that is not an
    AppId provider, and then once, with the base64 of the public key of the
    returned pair and the returned signing keys.  A key pair that was passed
    in is the one returned, and signing keys exist exactly with DPoP. *)
Theorem createSessionKeys_binds_returned_key
    (env : Env) (authProvider : option AuthProvider) (dpopEnabled : bool)
    (keypair : option PemKeyPair) (t t' : list Effect) (keys : SessionKeys) :
  createSessionKeys env authProvider dpopEnabled keypair t = (Ok keys, t') ->
  public_key_updates t'
  = public_key_updates t
    ++ match authProvider with
       | Some provider =>
           if isAppIdProviderCheck provider then []
           else [(provider,
                  env_base64_encode env (publicKey (Tdf3Client.keypair keys)),
                  signingKeys keys)]
       | None => []
       end
  /\ (forall k, keypair = Some k -> Tdf3Client.keypair keys = k)
  /\ (is_Some (signingKeys keys) <-> dpopEnabled = true).
Proof.
  intros Hrun. unfold public_key_updates.
  run_new Hrun; cbn in *; simplify_eq.
  all: rewrite ?omap_app; cbn; rewrite ?app_nil_r.
  all: split; [done|]; split; [by intros ? [= ->]|].
  all: split; by (intros [? [=]] + intros [=] + eauto).
Qed.

Lemma createSessionKeys_binds_returned_key_witness :
  exists (keys : SessionKeys) (t' : list Effect),
    createSessionKeys sample_env (Some (CustomProvider false "mine")) true None []
    = (Ok keys, t')
    /\ public_key_updates t'
       = [(CustomProvider false "mine", "PUBLIC", Some "SIGNING")].
Proof.
  eexists _, _. split; [vm_compute; reflexivity|].
  exact (proj1 (createSessionKeys_binds_returned_key sample_env
                  (Some (CustomProvider false "mine")) true None [] _ _ eq_refl)).
Defined.

(** *** The policy of a remote content access link *)

(** X15.  When encrypt is called with an rcaSource and returns, exactly one
    policy was set on the TDF and the returned stream carries the uuid of
    that policy: the uuid of scope.policyObject when one was passed,
    otherwise scope.policyId when it is not empty, otherwise a fresh one. *)
Theorem encrypt_rca_stream_carries_policy_uuid
    (env : Env) (this : Client) (params : EncryptParams) (t t' : list Effect)
    (stream : Chunkers.DecoratedReadableStream) :
  rcaSource params = true ->
  encrypt env this params t = (Ok stream, t') ->
  exists p : Policy,
    policies_set t' = policies_set t ++ [p]
    /\ Chunkers.policyUuid stream = Some (uuid p)
    /\ p = _createPolicyObject env
             (default (mkScope None None (Some []) (Some [])) (scope params))
    /\ (forall given,
          (scope params ≫= scope_policyObject) = Some given -> p = given)
    /\ (forall (sc : Scope) (id : string),
          scope params = Some sc -> scope_policyObject sc = None ->
          scope_policyId sc = Some id -> id <> "" -> uuid p = id).
Proof.
  intros Hrca Hrun. unfold policies_set.
  eexists. split_and!; [| |reflexivity| |].
  - run_encrypt Hrun; rewrite ?omap_app; cbn; rewrite ?app_nil_r; try done.
  - run_encrypt Hrun; try done; congruence.
  - intros given Hgiven. destruct (scope params) as [sc|]; [|done].
    cbn in Hgiven |- *. unfold _createPolicyObject. by rewrite Hgiven.
  - intros sc id Hsc Hobj Hid Hne. rewrite Hsc. cbn. unfold _createPolicyObject.
    rewrite Hobj, Hid. cbn. by destruct id.
Qed.

Lemma encrypt_rca_stream_carries_policy_uuid_witness :
  exists (stream : Chunkers.DecoratedReadableStream) (t' : list Effect),
    encrypt sample_env sample_client rca_params [] = (Ok stream, t')
    /\ Chunkers.policyUuid stream = Some "policy-1".
Proof.
  eexists _, _. split; [vm_compute; reflexivity|].
  destruct (encrypt_rca_stream_carries_policy_uuid sample_env sample_client
              rca_params [] _ _ eq_refl
              ltac:(vm_compute; reflexivity)) as (p & _ & Huuid & -> & _).
  exact Huuid.
Defined.

End ClientCoverage.

(** ** decrypt and toFile *)

Module DecryptCoverage.

Import Chunkers Tdf3Client Tdf3Decrypt Scenarios.

Ltac run_decrypt :=
  unfold decrypt, record, in_world, makeChunkable, streamToBuffer;
  unfold mbind, Eff_bind, mret, Eff_ret, await, throw.

(** X16.  decrypt of a stream that has not been read, on a client whose
    session keys are there and whose entity object (if it has an EAS) could
    be fetched, drains the stream and then calls TDF.readStream once, with a
    chunker that returns all the bytes of the stream; what readStream
    answers is what decrypt answers. *)
Theorem decrypt_hands_over_the_drained_stream
    (env : DecryptEnv) (this : Client) (location : ReadableStream)
    (rcaSource : bool) (keys : SessionKeys) (s : DecryptState) :
  sessionKeys this = Ok keys ->
  (is_Some (eas this) -> exists eo, env_fetchEntityObject env = Ok eo) ->
  stream_id location ∉ disturbed (outside s) ->
  exists (chunker : Chunker) (s' : DecryptState),
    decrypt env this (mkDecryptParams (Some (DecryptStream location)) rcaSource) s
    = (env_readStream env, s')
    /\ chunkers_read (effects s') = chunkers_read (effects s) ++ [chunker]
    /\ disturbed (outside s') = stream_id location :: disturbed (outside s)
    /\ chunker None None (outside s')
       = (Ok (concat (chunks location)), outside s').
Proof.
  intros Hkeys Heas Hfresh.
  exists (fromBuffer (concat (chunks location))).
  assert (forall b w, fromBuffer b None None w = (Ok b, w)) as Hall.
  { intros b w. unfold fromBuffer, mret, Eff_ret, slice, rel_index.
    cbn [from_option id].
    assert ((0 <? 0) = false) as -> by done.
    set (n := Z.of_nat (length b)).
    assert ((n <? 0) = false) as -> by lia.
    replace (Z.to_nat (0 `min` n)) with 0%nat by lia.
    rewrite drop_0, take_ge by (subst n; lia). done. }
  unfold chunkers_read. run_decrypt. rewrite Hkeys.
  destruct (eas this) as [e|];
    [destruct (Heas ltac:(by eexists)) as [eo ->]; destruct eo|];
    cbn; rewrite (bool_decide_eq_false_2 _ Hfresh);
    (eexists; split; [reflexivity|]); cbn;
    rewrite ?omap_app; cbn; rewrite ?app_nil_r; done.
Qed.

Lemma decrypt_hands_over_the_drained_stream_witness :
  exists (chunker : Chunker) (s' : DecryptState),
    decrypt sample_decrypt_env appid_client
      (mkDecryptParams (Some (DecryptStream (mkStream 7 [sample; sample]))) false)
      (mkDecryptState [] sample_world)
    = (env_readStream sample_decrypt_env, s')
    /\ chunkers_read (effects s') = chunkers_read [] ++ [chunker]
    /\ disturbed (outside s') = [7%nat]
    /\ chunker None None (outside s') = (Ok (sample ++ sample), outside s').
Proof.
  apply (decrypt_hands_over_the_drained_stream sample_decrypt_env appid_client
           (mkStream 7 [sample; sample]) false
           (mkSessionKeys (mkPemKeyPair "PUBLIC" "PRIVATE") None)
           (mkDecryptState [] sample_world)).
  - reflexivity.
  - intros _. by eexists.
  - cbn. set_solver.
Defined.

(** X17.  decrypt looks at its source last.  Called without a source it
    throws Error('Invalid source'), but only after it has awaited the session
    keys, fetched the entity object with the session public key if the
    client has an EAS, and set up the TDF; readStream is never called. *)
Theorem decrypt_checks_its_source_last
    (env : DecryptEnv) (this : Client) (rcaSource : bool) (keys : SessionKeys)
    (s : DecryptState) :
  sessionKeys this = Ok keys ->
  (is_Some (eas this) -> exists eo, env_fetchEntityObject env = Ok eo) ->
  exists s' : DecryptState,
    decrypt env this (mkDecryptParams None rcaSource) s
    = (Throw (Error "Invalid source"), s')
    /\ entity_fetches (effects s')
       = entity_fetches (effects s)
         ++ match eas this with
            | Some e => [(e, publicKey (keypair keys))]
            | None => []
            end
    /\ Builder TdfCreate ∈ effects s'
    /\ chunkers_read (effects s') = chunkers_read (effects s)
    /\ outside s' = outside s.
Proof.
  intros Hkeys Heas.
  unfold entity_fetches, chunkers_read. run_decrypt. rewrite Hkeys.
  destruct (eas this) as [e|];
    [destruct (Heas ltac:(by eexists)) as [eo ->]; destruct eo|];
    cbn; (eexists; split; [reflexivity|]); cbn;
    rewrite ?omap_app; cbn; rewrite ?app_nil_r;
    (split_and!; try done);
    rewrite ?elem_of_app, ?list_elem_of_singleton; auto 10.
Qed.

Lemma decrypt_checks_its_source_last_witness :
  exists s' : DecryptState,
    decrypt sample_decrypt_env appid_client (mkDecryptParams None false)
      (mkDecryptState [] sample_world)
    = (Throw (Error "Invalid source"), s')
    /\ entity_fetches (effects s')
       = [(mkEAS (CustomProvider true "appid") "https://eas.example/api/entityobject",
           "PUBLIC")]
    /\ Builder TdfCreate ∈ effects s'
    /\ chunkers_read (effects s') = []
    /\ outside s' = sample_world.
Proof.
  apply (decrypt_checks_its_source_last sample_decrypt_env appid_client false
           (mkSessionKeys (mkPemKeyPair "PUBLIC" "PRIVATE") None)
           (mkDecryptState [] sample_world)).
  - reflexivity.
  - intros _. by eexists.
Defined.

End DecryptCoverage.

Module SinkCoverage.

Import Stdlib.Strings.Ascii.
Import Chunkers StreamSinks Scenarios.

(** *** The extension offered to the save dialog *)

Lemma split_dots_dotless (s : string) :
  dotless s = true -> split_dots s = [s].
Proof.
  induction s as [|c s IH]; [done|]. cbn.
  destruct (Ascii.eqb c "."%char); [done|]. cbn. intros Hs. by rewrite (IH Hs).
Qed.

(** Splitting at a dot puts the pieces of both sides together. *)
Lemma split_dots_app (a b : string) :
  split_dots (a +:+ "." +:+ b) = split_dots a ++ split_dots b.
Proof.
  induction a as [|c a IH]; [done|].
  change (String c a +:+ "." +:+ b) with (String c (a +:+ "." +:+ b)).
  cbn [split_dots]. rewrite IH.
  destruct (Ascii.eqb c "."%char); [done|].
  destruct (split_dots a) as [|piece pieces] eqn:Ha; [|done].
  exfalso. clear -Ha. destruct a as [|d a]; [done|]. cbn in Ha.
  destruct (Ascii.eqb d "."%char); [done|]. by destruct (split_dots a).
Qed.

(** X18.  The extension that toFile offers to the save dialog is a dot
    followed by whatever follows the last dot of the file name; for a name
    without a dot that is the whole name. *)
Theorem extension_of_follows_last_dot (base ext : string) :
  dotless ext = true ->
  extension_of (base +:+ "." +:+ ext) = "." +:+ ext
  /\ extension_of ext = "." +:+ ext.
Proof.
  intros Hext. unfold extension_of.
  rewrite split_dots_app, (split_dots_dotless _ Hext), last_snoc.
  done.
Qed.

Lemma extension_of_follows_last_dot_witness :
  extension_of "archive.2024.tdf" = ".tdf" /\ extension_of "tdf" = ".tdf".
Proof.
  apply (extension_of_follows_last_dot "archive.2024" "tdf"). reflexivity.
Defined.

(** *** toFile *)

Lemma pump_writes (body : list bytes) (b : Browser) :
  (forall e, accepts b e = Ok tt) ->
  pump body b
  = (Ok tt,
     mkBrowser (isFirefox b) (WritableStream b) (accepts b)
       (sunk b ++ (WriterWrite <$> body) ++ [WriterClose]) (streams b)).
Proof.
  revert b. induction body as [|chunk body IH]; intros b Hacc.
  - cbn. unfold sink. by rewrite Hacc.
  - cbn [pump]. unfold mbind, Eff_bind, sink at 1. rewrite Hacc.
    rewrite IH by done. cbn. by rewrite <- app_assoc.
Qed.

(** X19.  In a browser other than Firefox whose sinks accept what they are
    given, toFile of a stream that has not been read writes the file under
    the given name: with WritableStream it pipes the chunks of the stream,
    without it it writes them one by one, in order, and then closes the
    writer.  The size is announced only when contentLength is not 0, and the
    stream is consumed. *)
Theorem toFile_writes_every_chunk
    (this : Sinkable) (filepath : option string) (b : Browser) :
  isFirefox b = false ->
  (forall e, accepts b e = Ok tt) ->
  stream_id (stream (decorated this)) ∉ disturbed (streams b) ->
  exists b' : Browser,
    toFile this filepath OptionsAbsent b = (Ok tt, b')
    /\ sunk b'
       = sunk b
         ++ match fileStreamServiceWorker (decorated this) with
            | Some url => if String.eqb url "" then [] else [SetMitm url]
            | None => []
            end
         ++ [CreateWriteStream (default "download.tdf" filepath)
               (match contentLength this with
                | Some n => if n =? 0 then None else Some n
                | None => None
                end)]
         ++ (if WritableStream b
             then [PipeTo (chunks (stream (decorated this))) OptionsAbsent]
             else (WriterWrite <$> chunks (stream (decorated this)))
                  ++ [WriterClose])
    /\ disturbed (streams b')
       = stream_id (stream (decorated this)) :: disturbed (streams b).
Proof.
  intros Hff Hacc Hfresh.
  unfold toFile, mbind, Eff_bind, mret, Eff_ret, take_chunks, sink, truthy.
  rewrite Hff. cbn.
  destruct (fileStreamServiceWorker (decorated this)) as [[|c url]|];
    cbn; rewrite ?Hacc; cbn; rewrite ?Hacc; cbn;
    rewrite (bool_decide_eq_false_2 _ Hfresh);
    (destruct (WritableStream b) eqn:Hws; cbn;
     [rewrite Hacc; eexists; split; [reflexivity|]; cbn
     |rewrite pump_writes by done; eexists; split; [reflexivity|]; cbn]);
    (split; [|done]);
    rewrite <- ?app_assoc; cbn;
    destruct (contentLength this) as [n|]; cbn;
    try destruct (n =? 0); done.
Qed.

Lemma toFile_writes_every_chunk_witness :
  exists b' : Browser,
    toFile ciphertext (Some "report.tdf") OptionsAbsent old_browser = (Ok tt, b')
    /\ sunk b'
       = [SetMitm "https://host/mitm.html";
          CreateWriteStream "report.tdf" (Some 6);
          WriterWrite sample; WriterWrite sample; WriterClose]
    /\ disturbed (streams b') = [3%nat].
Proof.
  apply (toFile_writes_every_chunk ciphertext (Some "report.tdf") old_browser).
  - reflexivity.
  - reflexivity.
  - cbn. set_solver.
Defined.

End SinkCoverage.

(** ** The multipart uploader, further *)

Module UploadCoverage.

Import S3Upload Scenarios UploadObservations UploadProofs.

Lemma run_invariant (P : Upload -> Prop) :
  (forall l s s', P s -> exec l s = Some s' -> P s') ->
  forall ls s s', P s -> run ls s = Some s' -> P s'.
Proof.
  intros Hstep ls. induction ls as [|l ls IH]; intros s s' Hs Hrun; cbn in Hrun.
  - by simplify_eq.
  - destruct (exec l s) as [s1|] eqn:Hexec; [|done]. eauto.
Qed.

Lemma new_Upload_inv (options : Options) (s : Upload) :
  new_Upload options = Ok s ->
  exists params totalBytes,
    opt_params options = Some params
    /\ opt_client options = true
    /\ MIN_PART_SIZE <= effective_partSize options
    /\ 1 <= effective_queueSize options
    /\ byteLength (Body params) = Ok totalBytes
    /\ s = mkUpload (effective_queueSize options) (effective_partSize options)
             (default false (opt_leavePartsOnError options))
             (default [] (opt_tags options)) params totalBytes 0 false false []
             None [] None false true None (opt_chunks options) false NotStarted
             None [] [].
Proof.
  unfold new_Upload. fold (effective_queueSize options) (effective_partSize options).
  intros Hnew.
  destruct (opt_params options) as [params|]; [|done].
  destruct (opt_client options); [|done]. cbn [negb] in Hnew.
  destruct (Z.ltb_spec (effective_partSize options) MIN_PART_SIZE); [done|].
  destruct (Z.ltb_spec (effective_queueSize options) 1); [done|].
  destruct (byteLength (Body params)) as [totalBytes|] eqn:Hlen; [|done].
  simplify_eq. by eexists _, _.
Qed.

(** *** The create command *)

Lemma create_once_exec (l : Label) (s s' : Upload) :
  create_once s -> exec l s = Some s' -> create_once s'.
Proof.
  unfold create_once, creates. intros Hs Hexec.
  destruct l; exec_cases s; rewrite ?omap_app; cbn; rewrite ?app_nil_r;
    try done; try congruence; by rewrite Hs.
Qed.

(** X20.  However many uploaders find the upload id missing, and whatever
    S3 answers, CreateMultipartUpload is sent at most once in an upload. *)
Theorem create_is_sent_at_most_once
    (options : Options) (s0 s : Upload) (ls : list Label) :
  new_Upload options = Ok s0 ->
  run ls s0 = Some s ->
  (length (creates s) <= 1)%nat.
Proof.
  intros Hnew Hrun.
  assert (create_once s) as Hs.
  { apply (run_invariant create_once create_once_exec ls s0 s); [|done].
    destruct (new_Upload_inv _ _ Hnew) as (? & ? & _ & _ & _ & _ & _ & ->).
    reflexivity. }
  rewrite Hs. destruct (createMultiPartPromise s); cbn; lia.
Qed.

Lemma create_is_sent_at_most_once_witness :
  exists s0 s : Upload,
    new_Upload cancel_options = Ok s0
    /\ run (before_cancel ++ [LCreated 1 (Ok (Some "upload-id"))]) s0 = Some s
    /\ (length (creates s) <= 1)%nat.
Proof.
  eexists _, _.
  split; [vm_compute; reflexivity|].
  split; [vm_compute; reflexivity|].
  eapply (create_is_sent_at_most_once cancel_options _ _
            (before_cancel ++ [LCreated 1 (Ok (Some "upload-id"))]));
    vm_compute; reflexivity.
Defined.

(** *** The completion *)

#[local] Instance part_le_total : Total part_le.
Proof. intros a b. unfold part_le. lia. Qed.

Lemma Sorted_sort_parts (l : list CompletedPart) : Sorted part_le (sort_parts l).
Proof. unfold sort_parts. apply Sorted_merge_sort. apply _. Qed.

Lemma forallb_all_returned (us : list Uploader) :
  forallb (fun u => match u with Returned => true | _ => false end) us = true ->
  all_returned us.
Proof.
  induction us as [|u us IH]; cbn.
  - intros _. constructor.
  - destruct u; try done. intros H. constructor; [done|]. by apply IH.
Qed.

Ltac not_returned :=
  match goal with
  | Hall : all_returned ?us, Hi : ?us !! ?i = Some ?u |- _ =>
      let Hx := fresh in
      pose proof (Forall_lookup_1 _ _ _ _ Hall Hi) as Hx;
      cbn beta in Hx; discriminate Hx
  end.

Lemma completion_ok_exec (l : Label) (s s' : Upload) :
  completion_ok s -> exec l s = Some s' -> completion_ok s'.
Proof.
  unfold completion_ok, completions, puts.
  intros (Hput & Hearly & Hdone) Hexec.
  destruct l; exec_cases s; rewrite ?omap_app; cbn; rewrite ?app_nil_r.
  all: try match goal with
           | H : forallb _ _ = true |- _ => apply forallb_all_returned in H
           end.
  all: try (destruct Hdone as [Hdone|(Hdone & Hsorted & Hnoput & Hret & Hm1 & Hm2)];
            [| try not_returned; try done]).
  all: try (specialize (Hearly ltac:(by (left + right)))).
  all: rewrite ?Hdone, ?Hearly; cbn.
  all: try (split; [done|]; split; [done|]; by left).
  all: try (split; [by intros|]; split; [by intros [|]|]; by left).
  all: try (split; [done|]; split; [by intros [|]|]; by left).
  all: try (split; [done|]; split; [by intros [|]|]; right;
            split_and!; auto using Sorted_sort_parts; done).
  all: try (split; [done|]; split; [done|]; right; split_and!; done).
  all: try (split; [done|]; split; [by intros [|]|]; right; split_and!; done).
Qed.

(** X21.  At every point of an upload on which done() is called no more
    than once, at most one CompleteMultipartUpload has been sent.  It
    carries the upload id and exactly the parts committed, in ascending
    order of part number, and it is never sent by an upload that has sent a
    PutObject. *)
Theorem completion_is_sorted_and_exclusive
    (options : Options) (s0 s : Upload) (ls : list Label) :
  new_Upload options = Ok s0 ->
  (done_calls ls <= 1)%nat ->
  run ls s0 = Some s ->
  completions s = []
  \/ (completions s = [(uploadId s, uploadedParts s)]
      /\ Sorted part_le (uploadedParts s)
      /\ puts s = []).
Proof.
  intros Hnew _ Hrun.
  assert (completion_ok s) as (_ & _ & [Hs|(Hs & Hsorted & Hput & _)]).
  { apply (run_invariant completion_ok completion_ok_exec ls s0 s); [|done].
    destruct (new_Upload_inv _ _ Hnew) as (? & ? & _ & _ & _ & _ & _ & ->).
    split; [done|]. split; [done|]. by left. }
  - by left.
  - by right.
Qed.

Lemma completion_is_sorted_and_exclusive_witness :
  exists s0 s : Upload,
    new_Upload (sequential_options 3) = Ok s0
    /\ run (sequential_schedule 3) s0 = Some s
    /\ (completions s = []
        \/ (completions s = [(uploadId s, uploadedParts s)]
            /\ Sorted part_le (uploadedParts s)
            /\ puts s = [])).
Proof.
  eexists _, _.
  split; [vm_compute; reflexivity|].
  split; [vm_compute; reflexivity|].
  eapply (completion_is_sorted_and_exclusive (sequential_options 3) _ _
            (sequential_schedule 3));
    [vm_compute; reflexivity | vm_compute; lia | vm_compute; reflexivity].
Defined.

(** *** Tagging *)

Lemma exec_tags (l : Label) (s s' : Upload) :
  exec l s = Some s' -> tags s' = tags s.
Proof. intros Hexec. destruct l; exec_cases s; done. Qed.

Lemma tagging_ok_exec (l : Label) (s s' : Upload) :
  tagging_ok s -> exec l s = Some s' -> tagging_ok s'.
Proof.
  unfold tagging_ok, taggings.
  intros (Hmain & Hdone) Hexec.
  destruct l; exec_cases s; rewrite ?omap_app; cbn; rewrite ?app_nil_r.
  all: try (split; [done|]; intros out Hout; simplify_eq; by apply Hdone).
  all: try (split; [done|]; intros out Hout; simplify_eq;
            try (by apply Hdone); done).
  all: try (split; [|intros out Hout; simplify_eq;
                     first [by apply Hdone
                           |by specialize (Hdone _ eq_refl)
                           |done]]).
  all: try done.
  all: try (rewrite Hmain; done).
  all: try match goal with
           | H : _ <> [] /\ _ = _ |- _ =>
               destruct H as [? ->]; try done; by (left + (right; split))
           end.
  all: try (by left); done.
Qed.

(** X22.  On an upload on which done() is called no more than once,
    PutObjectTagging is sent at most once and only with the tags the upload
    was configured with; an upload without tags never sends it, and done()
    resolves successfully for an upload with tags only after the tagging
    command has been sent. *)
Theorem tagging_follows_the_configured_tags
    (options : Options) (s0 s : Upload) (ls : list Label) :
  new_Upload options = Ok s0 ->
  (done_calls ls <= 1)%nat ->
  run ls s0 = Some s ->
  (taggings s = [] \/ taggings s = [default [] (opt_tags options)])
  /\ (default [] (opt_tags options) = [] -> taggings s = [])
  /\ (forall out,
        done_result s = Some (Ok out) ->
        default [] (opt_tags options) <> [] ->
        taggings s = [default [] (opt_tags options)]).
Proof.
  intros Hnew _ Hrun.
  assert (tags s = default [] (opt_tags options)) as Htags.
  { destruct (new_Upload_inv _ _ Hnew) as (? & ? & _ & _ & _ & _ & _ & Hs0).
    transitivity (tags s0); [|by rewrite Hs0].
    apply (run_invariant (fun s => tags s = tags s0)) with (ls := ls) (s := s0);
      [|done..].
    intros l s1 s2 H1 Hexec. by rewrite (exec_tags _ _ _ Hexec). }
  assert (tagging_ok s) as (Hmain & Hdone).
  { apply (run_invariant tagging_ok tagging_ok_exec ls s0 s); [|done].
    destruct (new_Upload_inv _ _ Hnew) as (? & ? & _ & _ & _ & _ & _ & ->).
    split; done. }
  rewrite <- Htags.
  split_and!.
  - destruct (main s) as [| | | |[]]; destruct (tags s); intuition congruence.
  - intros Hnil. rewrite Hnil in *.
    destruct (main s) as [| | | |[]]; intuition congruence.
  - intros out Hout Hne. rewrite (Hdone _ Hout) in Hmain.
    by destruct (tags s).
Qed.

Lemma tagging_follows_the_configured_tags_witness :
  exists s0 s : Upload,
    new_Upload tagged_options = Ok s0
    /\ run (sequential_schedule 3 ++ [LTagged (Ok tt)]) s0 = Some s
    /\ done_result s = Some (Ok (Some complete_ok))
    /\ taggings s = [[mkTag "project" "tdf"]].
Proof.
  eexists _, _.
  split; [vm_compute; reflexivity|].
  split; [vm_compute; reflexivity|].
  split; [vm_compute; reflexivity|].
  eapply (tagging_follows_the_configured_tags tagged_options _ _
            (sequential_schedule 3 ++ [LTagged (Ok tt)]));
    [vm_compute; reflexivity | vm_compute; lia | vm_compute; reflexivity..
    | discriminate].
Defined.

(** *** Parts in flight *)

(** X23.  At every point of an upload on which done() is called no more
    than once, the parts committed together with the parts that are past the
    check against MAX_PARTS and may still be committed number at most
    MAX_PARTS + queueSize. *)
Theorem committed_and_pending_parts_bound
    (options : Options) (s0 s : Upload) (ls : list Label) :
  new_Upload options = Ok s0 ->
  (done_calls ls <= 1)%nat ->
  run ls s0 = Some s ->
  Z.of_nat (length (uploadedParts s))
  + Z.of_nat (sum_list (pending <$> concurrentUploaders s))
  <= MAX_PARTS + queueSize s0.
Proof.
  intros Hnew _ Hrun.
  assert (consistent s /\ within_limit s /\ queueSize s = queueSize s0)
    as (_ & (Hq & Hus & Hlim) & Hsame).
  { apply (run_invariant
             (fun s => consistent s /\ within_limit s /\ queueSize s = queueSize s0))
      with (ls := ls) (s := s0); [|by eauto using consistent_new, within_limit_new|done].
    intros l s1 s2 (Hc & Hw & Hsz) Hexec.
    split_and!; [by eapply consistent_exec|by eapply within_limit_exec|].
    by rewrite (exec_queueSize _ _ _ Hexec). }
  lia.
Qed.

Lemma committed_and_pending_parts_bound_witness :
  exists s0 s : Upload,
    new_Upload cancel_options = Ok s0
    /\ run before_cancel s0 = Some s
    /\ Z.of_nat (length (uploadedParts s))
       + Z.of_nat (sum_list (pending <$> concurrentUploaders s))
       <= MAX_PARTS + queueSize s0.
Proof.
  eexists _, _.
  split; [vm_compute; reflexivity|].
  split; [vm_compute; reflexivity|].
  eapply (committed_and_pending_parts_bound cancel_options _ _ before_cancel);
    [vm_compute; reflexivity | vm_compute; lia | vm_compute; reflexivity].
Defined.

(** *** A part that S3 refuses *)

(** X24.  When S3 rejects an UploadPart of an upload that has its upload
    id, the part is not committed.  Without leavePartsOnError the error is
    swallowed: the uploader goes on to the next part and done() is not
    affected.  With leavePartsOnError the uploader throws the error, and a
    pending done() rejects with it once Promise.all sees the uploader. *)
Theorem rejected_part_is_dropped_or_rethrown
    (s : Upload) (i : nat) (p : RawDataPart) (e : JsError) :
  uploader_at i s = Some (AwaitPart p) ->
  truthy_str (uploadId s) = true ->
  exists s' : Upload,
    exec (LPartSent i (Throw e)) s = Some s'
    /\ uploadedParts s' = uploadedParts s
    /\ sent s' = sent s
    /\ if leavePartsOnError s
       then uploader_at i s' = Some (Threw e)
            /\ (main s = AwaitAll -> done_result s = None ->
                exists s2 : Upload,
                  exec (LAllRejected i) s' = Some s2
                  /\ done_result s2 = Some (Throw e))
       else uploader_at i s' = Some AtNext
            /\ main s' = main s
            /\ done_result s' = done_result s.
Proof.
  intros Hat Hid.
  assert (i < length (concurrentUploaders s))%nat as Hi
    by (eapply lookup_lt_Some; exact Hat).
  unfold exec. rewrite Hat. eexists. split; [reflexivity|].
  unfold catch_block. rewrite Hid. cbn [negb].
  destruct (leavePartsOnError s) eqn:Hleave.
  - split; [done|]. split; [done|]. split.
    + unfold uploader_at, leave_loop, set_uploader. cbn.
      by apply list_lookup_insert_eq.
    + intros Hmain Hdone. unfold leave_loop, set_uploader, uploader_at. cbn.
      rewrite Hmain, list_lookup_insert_eq by done.
      eexists. split; [reflexivity|]. unfold settle. cbn. by rewrite Hdone.
  - split; [done|]. split; [done|]. split; [|done].
    unfold uploader_at, set_uploader. cbn. by apply list_lookup_insert_eq.
Qed.

Lemma rejected_part_is_dropped_or_rethrown_witness :
  exists s0 s : Upload,
    new_Upload cancel_options = Ok s0
    /\ run before_cancel s0 = Some s
    /\ exists s' : Upload,
        exec (LPartSent 0 (Throw (Error "SlowDown"))) s = Some s'
        /\ uploadedParts s' = uploadedParts s
        /\ sent s' = sent s
        /\ if leavePartsOnError s
           then uploader_at 0 s' = Some (Threw (Error "SlowDown"))
                /\ (main s = AwaitAll -> done_result s = None ->
                    exists s2 : Upload,
                      exec (LAllRejected 0) s' = Some s2
                      /\ done_result s2 = Some (Throw (Error "SlowDown")))
           else uploader_at 0 s' = Some AtNext
                /\ main s' = main s
                /\ done_result s' = done_result s.
Proof.
  eexists _, _.
  split; [vm_compute; reflexivity|].
  split; [vm_compute; reflexivity|].
  eapply (rejected_part_is_dropped_or_rethrown _ 0);
    vm_compute; reflexivity.
Defined.

(** *** Every part at most once *)

Lemma occurrences_app (n : Z) (l k : list Z) :
  occurrences n (l ++ k) = (occurrences n l + occurrences n k)%nat.
Proof. unfold occurrences. by rewrite fmap_app, sum_list_with_app. Qed.

Lemma occurrences_cons (n m : Z) (l : list Z) :
  occurrences n (m :: l)
  = ((if (m =? n)%Z then 1 else 0) + occurrences n l)%nat.
Proof. reflexivity. Qed.

Lemma occurrences_sort_parts (n : Z) (l : list CompletedPart) :
  occurrences n (PartNumber <$> sort_parts l) = occurrences n (PartNumber <$> l).
Proof.
  unfold occurrences, sort_parts. by rewrite merge_sort_Permutation.
Qed.

Lemma copies_exec (n : Z) (l : Label) (s s' : Upload) :
  exec l s = Some s' -> (copies n s' <= copies n s)%nat.
Proof.
  intros Hexec. unfold copies.
  destruct l; exec_cases s.
  all: rewrite ?occurrences_sort_parts, ?fmap_app, ?occurrences_app,
         ?fmap_cons, ?occurrences_cons, ?sum_list_replicate_AtNext.
  all: repeat match goal with
         | H : ?us !! ?i = Some ?u0 |- context [<[?i:=?u]> ?us] =>
             pose proof (sum_list_insert (holds n) us i u0 u H);
             generalize dependent (<[i:=u]> us); intros
         end.
  all: cbn [holds fmap list_fmap PartNumber completed_part partNumber] in *.
  all: try lia.
  all: repeat match goal with
         | H : context [if ?b then _ else _] |- _ => destruct b
         | |- context [if ?b then _ else _] => destruct b
         end; try done; try lia.
  all: rewrite ?occurrences_app, ?occurrences_cons; unfold occurrences;
    cbn [sum_list_with id fmap list_fmap]; try lia.
Qed.

Lemma occurrences_le_1 (l : list Z) :
  NoDup l -> forall n, (occurrences n l <= 1)%nat.
Proof.
  induction 1 as [|m l Hm _ IH]; intros n; [unfold occurrences; cbn; lia|].
  rewrite occurrences_cons. destruct (Z.eqb_spec m n) as [->|]; [|by apply IH].
  assert (occurrences n l = 0%nat) as ->; [|lia].
  clear IH. induction l as [|k l IH]; [done|].
  rewrite occurrences_cons. apply not_elem_of_cons in Hm as [Hk Hm].
  destruct (Z.eqb_spec k n); [done|]. by apply IH.
Qed.

Lemma occurrences_elem_of (n : Z) (l : list Z) :
  (1 <= occurrences n l)%nat <-> n ∈ l.
Proof.
  induction l as [|m l IH];
    [unfold occurrences; cbn; split; [lia|by intros ?%elem_of_nil]|].
  rewrite occurrences_cons, elem_of_cons.
  destruct (Z.eqb_spec m n) as [->|]; [split; [by left|lia]|].
  cbn [Nat.add]. rewrite IH. split; [by right|]. by intros [|].
Qed.

Lemma NoDup_occurrences (l : list Z) :
  (forall n, (occurrences n l <= 1)%nat) -> NoDup l.
Proof.
  induction l as [|m l IH]; intros Hocc; [constructor|].
  constructor.
  - intros Hin%occurrences_elem_of. specialize (Hocc m).
    rewrite occurrences_cons, Z.eqb_refl in Hocc. lia.
  - apply IH. intros n. specialize (Hocc n).
    rewrite occurrences_cons in Hocc. lia.
Qed.

(** X25.  On an upload on which done() is called no more than once, the
    uploaders share one feeder, and no part is committed more often than the
    feeder yielded it: every committed part number is the number of a
    yielded part, and when the yielded part numbers are distinct the
    committed ones are distinct too. *)
Theorem committed_parts_are_yielded_once
    (options : Options) (s0 s : Upload) (ls : list Label) :
  new_Upload options = Ok s0 ->
  (done_calls ls <= 1)%nat ->
  run ls s0 = Some s ->
  (forall n, occurrences n (PartNumber <$> uploadedParts s)
             <= occurrences n (partNumber <$> opt_chunks options))%nat
  /\ (forall n, n ∈ PartNumber <$> uploadedParts s ->
                n ∈ partNumber <$> opt_chunks options)
  /\ (NoDup (partNumber <$> opt_chunks options) ->
      NoDup (PartNumber <$> uploadedParts s)).
Proof.
  intros Hnew _ Hrun.
  assert (forall n, occurrences n (PartNumber <$> uploadedParts s)
                    <= occurrences n (partNumber <$> opt_chunks options))%nat
    as Hocc.
  { intros n.
    assert (copies n s <= copies n s0)%nat as Hle.
    { apply (run_invariant (fun s => copies n s <= copies n s0)%nat)
        with (ls := ls) (s := s0); [|done..].
      intros l s1 s2 H1 Hexec. pose proof (copies_exec n _ _ _ Hexec). lia. }
    destruct (new_Upload_inv _ _ Hnew) as (? & ? & _ & _ & _ & _ & _ & Hs0).
    rewrite Hs0 in Hle. unfold copies in Hle. cbn in Hle.
    unfold occurrences in *. cbn in Hle. lia. }
  split; [done|]. split.
  - intros n Hn%occurrences_elem_of. apply occurrences_elem_of.
    specialize (Hocc n). lia.
  - intros Hnd. apply NoDup_occurrences. intros n.
    pose proof (occurrences_le_1 _ Hnd n). specialize (Hocc n). lia.
Qed.

Lemma committed_parts_are_yielded_once_witness :
  exists s0 s : Upload,
    new_Upload (sequential_options 3) = Ok s0
    /\ run (sequential_schedule 3) s0 = Some s
    /\ PartNumber <$> uploadedParts s = [1; 2; 3]
    /\ NoDup (PartNumber <$> uploadedParts s).
Proof.
  eexists _, _.
  split; [vm_compute; reflexivity|].
  split; [vm_compute; reflexivity|].
  split; [vm_compute; reflexivity|].
  eapply (committed_parts_are_yielded_once (sequential_options 3) _ _
            (sequential_schedule 3)).
  - vm_compute; reflexivity.
  - vm_compute; lia.
  - vm_compute; reflexivity.
  - by apply (bool_decide_unpack _).
Defined.


(** *** A body that fits one part *)

Lemma sort_parts_nil : sort_parts [] = [].
Proof. reflexivity. Qed.

Lemma put_only_exec (p : RawDataPart) (l : Label) (s s' : Upload) :
  single_part p -> put_only p s -> exec l s = Some s' -> put_only p s'.
Proof.
  unfold put_only, puts. destruct p as [number body last].
  intros [Hnum Hlast] (Hq & Hsent & Hup & Hfree & Hstate) Hexec.
  cbn in Hnum, Hlast. subst number last.
  destruct l; exec_cases s; rewrite ?omap_app; cbn; rewrite ?app_nil_r.
  all: try match goal with
           | Hall : Forall multipart_free ?us, Hi : ?us !! ?i = Some ?u |- _ =>
               let Hx := fresh in
               pose proof (Forall_lookup_1 _ _ _ _ Hall Hi) as Hx;
               cbn in Hx; try done
           end.
  all: destruct Hstate as
         [(Hfeed & Hputs & HmultiL & Hclosing & [[Hmain Hus]|[Hmain Hus]])
         |(Hfeed & Hputs & HmultiR)];
       simplify_eq/=.
  all: try match goal with
           | H : forallb _ (replicate (Z.to_nat ?q) AtNext) = true |- _ =>
               exfalso; destruct (Z.to_nat q) eqn:?; [lia|discriminate H]
           end.
  all: try match goal with
           | H : replicate _ AtNext !! _ = Some ?u |- _ =>
               apply lookup_replicate in H as [? ?]; discriminate
           end.
  all: try (destruct HmultiR as [? ?]; [done|]; simplify_eq/=).
  all: rewrite ?sort_parts_nil, ?Hputs.
  all: cbn [app].
  all: split; [done|].
  all: split; [rewrite ?Forall_app, ?Forall_singleton; try done; by split|].
  all: split; [done|].
  all: split; [first [done
                     |by apply Forall_replicate
                     |by apply Forall_insert
                     |by apply Forall_nil]|].
  all: first
    [ left; split_and!; try done; by (left + right)
    | right; split_and!; try done;
      first [by (left + right) | by intros [=] | by intros ?; split
            | intros ?; by apply HmultiR
            | intros Hm; destruct (HmultiR Hm) as [? ?]; by split ] ].
Qed.

(** X26.  When the feeder yields one part only (part number 1, flagged as
    the last), an upload with a Key on which done() is called no more than
    once never leaves the PutObject path: every command it sends is a
    PutObject or a PutObjectTagging, PutObject is sent at most once and
    carries that part, and no part is committed for a multipart
    completion. *)
Theorem single_part_upload_uses_put
    (options : Options) (p : RawDataPart) (s0 s : Upload) (ls : list Label) :
  new_Upload options = Ok s0 ->
  is_Some (Key (params s0)) ->
  opt_chunks options = [p] ->
  single_part p ->
  (done_calls ls <= 1)%nat ->
  run ls s0 = Some s ->
  Forall put_or_tagging (sent s)
  /\ (puts s = [] \/ puts s = [data p])
  /\ uploadedParts s = [].
Proof.
  intros Hnew _ Hchunks Hp _ Hrun.
  assert (put_only p s) as (_ & Hsent & Hup & _ & Hstate).
  { apply (run_invariant (put_only p) (fun l s1 s2 => put_only_exec p l s1 s2 Hp)
             ls s0 s); [|done].
    destruct (new_Upload_inv _ _ Hnew) as (? & ? & _ & _ & _ & ? & _ & ->).
    unfold put_only, puts. cbn. rewrite Hchunks.
    split_and!; try done. left. split_and!; try done. by left. }
  split; [done|]. split; [|done].
  destruct Hstate as [(_ & -> & _)|(_ & Hputs & _)]; [by left|done].
Qed.

Lemma single_part_upload_uses_put_witness :
  exists s0 s : Upload,
    new_Upload single_options = Ok s0
    /\ run single_schedule s0 = Some s
    /\ done_result s = Some (Ok (Some complete_ok))
    /\ sent s = [PutObjectCommand small_body]
    /\ Forall put_or_tagging (sent s)
    /\ (puts s = [] \/ puts s = [small_body])
    /\ uploadedParts s = [].
Proof.
  eexists _, _.
  split; [vm_compute; reflexivity|].
  split; [vm_compute; reflexivity|].
  split; [vm_compute; reflexivity|].
  split; [vm_compute; reflexivity|].
  eapply (single_part_upload_uses_put single_options
            (mkRawDataPart 1 small_body true) _ _ single_schedule).
  - vm_compute; reflexivity.
  - by eexists.
  - reflexivity.
  - by split.
  - vm_compute; lia.
  - vm_compute; reflexivity.
Defined.

(** *** The constructor *)

(** X27.  Every upload the constructor accepts has at least one uploader and
    a part size of at least 5 MiB.  A queueSize or partSize of 0 is not
    refused: it selects the default (4 uploaders, 5 MiB).  The new upload has
    sent and committed nothing. *)
Theorem new_Upload_sizes (options : Options) (s : Upload) :
  new_Upload options = Ok s ->
  queueSize s = match opt_queueSize options with
                | Some q => if q =? 0 then 4 else q
                | None => 4
                end
  /\ 1 <= queueSize s
  /\ partSize s = match opt_partSize options with
                  | Some n => if n =? 0 then 5 * 1024 * 1024 else n
                  | None => 5 * 1024 * 1024
                  end
  /\ 5 * 1024 * 1024 <= partSize s
  /\ sent s = [] /\ uploadedParts s = [] /\ bytesUploadedSoFar s = 0
  /\ aborted s = false /\ done_result s = None.
Proof.
  intros Hnew.
  destruct (new_Upload_inv _ _ Hnew) as (? & ? & _ & _ & Hpart & Hqueue & _ & ->).
  cbn. unfold effective_queueSize, effective_partSize, truthy, MIN_PART_SIZE in *.
  destruct (opt_queueSize options) as [q|], (opt_partSize options) as [n|];
    cbn [from_option id] in *;
    repeat match goal with
           | H : context [?a =? 0] |- _ => destruct (Z.eqb_spec a 0)
           end; cbn [negb] in *; split_and!; done || lia.
Qed.

Lemma new_Upload_sizes_witness :
  exists s : Upload,
    new_Upload (mkOptions (Some 0) (Some 0) None None true
                  (Some (mkParams (Some "bucket") (Some "key") BodyNull)) [])
    = Ok s
    /\ queueSize s = 4
    /\ 1 <= queueSize s
    /\ partSize s = 5 * 1024 * 1024
    /\ 5 * 1024 * 1024 <= partSize s
    /\ sent s = [] /\ uploadedParts s = [] /\ bytesUploadedSoFar s = 0
    /\ aborted s = false /\ done_result s = None.
Proof.
  eexists. split; [vm_compute; reflexivity|].
  apply (new_Upload_sizes
           (mkOptions (Some 0) (Some 0) None None true
              (Some (mkParams (Some "bucket") (Some "key") BodyNull)) [])).
  vm_compute; reflexivity.
Defined.

(** *** The check against MAX_PARTS *)

(** X28.  An uploader that takes a part refuses it with the 'Exceeded'
    error exactly when more than MAX_PARTS parts are committed at that
    moment.  A refused part is dropped: nothing is sent or committed for it,
    and a pending done() rejects with that error once Promise.all sees the
    uploader. *)
Theorem part_is_refused_only_over_the_limit
    (s : Upload) (i : nat) (p : RawDataPart) (rest : list RawDataPart) :
  uploader_at i s = Some AtNext ->
  dataFeeder s = p :: rest ->
  exists s' : Upload,
    exec (LNext i) s = Some s'
    /\ dataFeeder s' = rest
    /\ (uploader_at i s' = Some (Threw (exceeded_error (params s)))
        <-> MAX_PARTS < Z.of_nat (length (uploadedParts s)))
    /\ (MAX_PARTS < Z.of_nat (length (uploadedParts s)) ->
        sent s' = sent s
        /\ uploadedParts s' = uploadedParts s
        /\ (main s = AwaitAll -> done_result s = None ->
            exists s2 : Upload,
              exec (LAllRejected i) s' = Some s2
              /\ done_result s2 = Some (Throw (exceeded_error (params s))))).
Proof.
  intros Hat Hfeed.
  assert (i < length (concurrentUploaders s))%nat as Hi
    by (eapply lookup_lt_Some; exact Hat).
  unfold exec. rewrite Hat, Hfeed. eexists. split; [reflexivity|].
  unfold loop_body.
  change (uploadedParts (set_dataFeeder rest s)) with (uploadedParts s).
  change (params (set_dataFeeder rest s)) with (params s).
  change (aborted (set_dataFeeder rest s)) with (aborted s).
  change (uploadId (set_dataFeeder rest s)) with (uploadId s).
  destruct (Z.ltb_spec MAX_PARTS (Z.of_nat (length (uploadedParts s)))) as [Hover|Hunder].
  - split; [done|]. split.
    + split; [done|]. intros _.
      unfold uploader_at, leave_loop, set_uploader. cbn.
      by apply list_lookup_insert_eq.
    + intros _. split; [done|]. split; [done|].
      intros Hmain Hdone. unfold leave_loop, set_uploader, uploader_at. cbn.
      rewrite Hmain, list_lookup_insert_eq by done.
      eexists. split; [reflexivity|]. unfold settle. cbn. by rewrite Hdone.
  - split.
    + by repeat case_match.
    + split; [|lia]. split; [|lia].
      unfold uploader_at, leave_loop, send_part, set_uploader.
      repeat case_match; cbn; rewrite list_lookup_insert_eq by done;
        intros [=].
Qed.

Lemma part_is_refused_only_over_the_limit_witness :
  exists s0 s : Upload,
    new_Upload cancel_options = Ok s0
    /\ run [LDone] s0 = Some s
    /\ exists s' : Upload,
        exec (LNext 0) s = Some s'
        /\ dataFeeder s' = parts_from 2 2
        /\ (uploader_at 0 s' = Some (Threw (exceeded_error (params s)))
            <-> MAX_PARTS < Z.of_nat (length (uploadedParts s)))
        /\ (MAX_PARTS < Z.of_nat (length (uploadedParts s)) ->
            sent s' = sent s
            /\ uploadedParts s' = uploadedParts s
            /\ (main s = AwaitAll -> done_result s = None ->
                exists s2 : Upload,
                  exec (LAllRejected 0) s' = Some s2
                  /\ done_result s2
                     = Some (Throw (exceeded_error (params s))))).
Proof.
  eexists _, _.
  split; [vm_compute; reflexivity|].
  split; [vm_compute; reflexivity|].
  eapply (part_is_refused_only_over_the_limit _ 0);
    vm_compute; reflexivity.
Defined.

(** *** What an abort leaves to be sent *)

Lemma exec_aborted_sent (l : Label) (s s' : Upload) :
  aborted s = true ->
  exec l s = Some s' ->
  aborted s' = true
  /\ exists extra : list Command,
      sent s' = sent s ++ extra /\ Forall tagging extra.
Proof.
  intros Ha Hexec.
  destruct l; exec_cases s.
  all: split; [done|].
  all: first [ by exists []; rewrite app_nil_r
             | eexists [_]; split; [reflexivity|]; by repeat constructor ].
Qed.

(** X29.  Once abort() was called the upload sends no CreateMultipartUpload,
    UploadPart, PutObject or CompleteMultipartUpload any more.  The only
    command that can still follow is PutObjectTagging, when the abort arrives
    after the completion was sent. *)
Theorem after_abort_only_tagging_is_sent
    (s s' : Upload) (ls : list Label) :
  aborted s = true ->
  run ls s = Some s' ->
  exists extra : list Command,
    sent s' = sent s ++ extra /\ Forall tagging extra.
Proof.
  revert s. induction ls as [|l ls IH]; intros s Ha Hrun; cbn in Hrun.
  - simplify_eq. exists []. by rewrite app_nil_r.
  - destruct (exec l s) as [s1|] eqn:Hexec; [|done].
    destruct (exec_aborted_sent _ _ _ Ha Hexec) as (Ha1 & extra1 & Hs1 & Ht1).
    destruct (IH _ Ha1 Hrun) as (extra2 & Hs2 & Ht2).
    exists (extra1 ++ extra2). rewrite Hs2, Hs1, app_assoc.
    split; [done|]. by apply Forall_app.
Qed.

Lemma after_abort_only_tagging_is_sent_witness :
  exists s0 s s' : Upload,
    new_Upload tagged_options = Ok s0
    /\ run (until_completion ++ [LAbort]) s0 = Some s
    /\ run [LCompleted (Ok complete_ok)] s = Some s'
    /\ exists extra : list Command,
        sent s' = sent s ++ extra /\ Forall tagging extra.
Proof.
  eexists _, _, _.
  split; [vm_compute; reflexivity|].
  split; [vm_compute; reflexivity|].
  split; [vm_compute; reflexivity|].
  eapply (after_abort_only_tagging_is_sent _ _ [LCompleted (Ok complete_ok)]);
    vm_compute; reflexivity.
Defined.

(** *** Progress reports *)

Lemma progress_ok_exec (l : Label) (s s' : Upload) :
  progress_ok s -> exec l s = Some s' -> progress_ok s'.
Proof.
  unfold progress_ok, puts. intros (Hlistener & Hcount) Hexec.
  destruct l; exec_cases s.
  all: rewrite ?omap_app, ?length_app, ?length_sort_parts,
         ?sum_list_replicate_AtNext.
  all: repeat match goal with
         | H : ?us !! ?i = Some ?u0 |- context [<[?i:=?u]> ?us] =>
             pose proof (sum_list_insert awaiting_put us i u0 u H);
             generalize dependent (<[i:=u]> us); intros
         end.
  all: cbn [awaiting_put length omap list_omap app] in *.
  all: split; [first [done | intros [=] | by intros; rewrite Hlistener] | try lia].
Qed.

(** X30.  Progress is reported only to a listener registered with on(): an
    upload without a listener reports nothing.  With a listener there is at
    most one report for every committed part and every PutObject sent. *)
Theorem progress_needs_a_listener
    (options : Options) (s0 s : Upload) (ls : list Label) :
  new_Upload options = Ok s0 ->
  run ls s0 = Some s ->
  (uploadEvent s = false -> progress s = [])
  /\ (length (progress s) <= length (uploadedParts s) + length (puts s))%nat.
Proof.
  intros Hnew Hrun.
  assert (progress_ok s) as (Hlistener & Hcount).
  { apply (run_invariant progress_ok progress_ok_exec ls s0 s); [|done].
    destruct (new_Upload_inv _ _ Hnew) as (? & ? & _ & _ & _ & _ & _ & ->).
    split; [done|]. cbn. lia. }
  split; [done|]. lia.
Qed.

Lemma progress_needs_a_listener_witness :
  exists s0 s : Upload,
    new_Upload (sequential_options 3) = Ok s0
    /\ run (LOn :: sequential_schedule 3) s0 = Some s
    /\ part <$> progress s = [1; 2; 3]
    /\ (uploadEvent s = false -> progress s = [])
    /\ (length (progress s) <= length (uploadedParts s) + length (puts s))%nat.
Proof.
  eexists _, _.
  split; [vm_compute; reflexivity|].
  split; [vm_compute; reflexivity|].
  split; [vm_compute; reflexivity|].
  eapply (progress_needs_a_listener (sequential_options 3) _ _
            (LOn :: sequential_schedule 3));
    vm_compute; reflexivity.
Defined.

End UploadCoverage.
